(** * SNS caption generator: prompt construction and response parsing

    A shallow embedding of [app.py]: the prompt builder
    [build_prompt_template], the response parser [parse_captions] and the
    form-submission script that composes them with the hosted completion
    service, followed by the properties its specification states.

    Python's [str] is a sequence of Unicode code points, so a string is a
    [list N]; the string methods the script calls ([strip], [splitlines],
    [split], [in], [isdigit], indexing) are written out with the semantics
    of CPython 3.11 (Unicode 14.0). *)

From Stdlib Require Import List NArith ZArith Bool Lia String Ascii DecimalString.
Import ListNotations.

(* ================================================================== *)
(** * Python strings *)
(* ================================================================== *)

Module PyStr.

Local Open Scope N_scope.

Definition char := N.
Definition str := list char.

(** ** Literals

    The source file is UTF-8; [u] decodes a literal written in this file
    (a sequence of UTF-8 bytes) into the code points Python sees. *)

Definition cont (b : N) : N := N.land b 0x3F.

Fixpoint decode_utf8 (bs : list N) : str :=
  match bs with
  | [] => []
  | b0 :: r0 =>
      if b0 <? 0x80 then b0 :: decode_utf8 r0
      else match r0 with
      | [] => [b0]
      | b1 :: r1 =>
          if b0 <? 0xE0
          then (N.shiftl (N.land b0 0x1F) 6 + cont b1) :: decode_utf8 r1
          else match r1 with
          | [] => [b0]
          | b2 :: r2 =>
              if b0 <? 0xF0
              then (N.shiftl (N.land b0 0x0F) 12 + N.shiftl (cont b1) 6 + cont b2)
                     :: decode_utf8 r2
              else match r2 with
              | [] => [b0]
              | b3 :: r3 =>
                  (N.shiftl (N.land b0 0x07) 18 + N.shiftl (cont b1) 12
                   + N.shiftl (cont b2) 6 + cont b3) :: decode_utf8 r3
              end
          end
      end
  end.

Definition u (s : string) : str :=
  decode_utf8 (map N_of_ascii (list_ascii_of_string s)).

Definition LF : char := 0x0A.
Definition CR : char := 0x0D.
Definition nl : str := [LF].

(** ** Character classes *)

Definition between (lo hi c : N) : bool := (lo <=? c) && (c <=? hi).

(** [str.isspace] on one character: CPython's [_Py_ascii_whitespace] and
    [_PyUnicode_IsWhitespace]. This is the set [str.strip()] removes. *)
Definition isspace (c : char) : bool :=
  between 0x09 0x0D c || between 0x1C 0x20 c
  || (c =? 0x85) || (c =? 0xA0) || (c =? 0x1680)
  || between 0x2000 0x200A c
  || (c =? 0x2028) || (c =? 0x2029) || (c =? 0x202F) || (c =? 0x205F)
  || (c =? 0x3000).

(** The line boundaries of [str.splitlines]: [_PyUnicode_IsLinebreak]. *)
Definition islinebreak (c : char) : bool :=
  between 0x0A 0x0D c || between 0x1C 0x1E c
  || (c =? 0x85) || (c =? 0x2028) || (c =? 0x2029).

(** The code points whose Unicode property Numeric_Type is Digit or
    Decimal (Unicode 14.0), as closed ranges. *)
Definition digit_ranges : list (N * N) :=
  [ (0x30, 0x39); (0xB2, 0xB3); (0xB9, 0xB9); (0x660, 0x669);
    (0x6F0, 0x6F9); (0x7C0, 0x7C9); (0x966, 0x96F); (0x9E6, 0x9EF);
    (0xA66, 0xA6F); (0xAE6, 0xAEF); (0xB66, 0xB6F); (0xBE6, 0xBEF);
    (0xC66, 0xC6F); (0xCE6, 0xCEF); (0xD66, 0xD6F); (0xDE6, 0xDEF);
    (0xE50, 0xE59); (0xED0, 0xED9); (0xF20, 0xF29); (0x1040, 0x1049);
    (0x1090, 0x1099); (0x1369, 0x1371); (0x17E0, 0x17E9); (0x1810, 0x1819);
    (0x1946, 0x194F); (0x19D0, 0x19DA); (0x1A80, 0x1A89); (0x1A90, 0x1A99);
    (0x1B50, 0x1B59); (0x1BB0, 0x1BB9); (0x1C40, 0x1C49); (0x1C50, 0x1C59);
    (0x2070, 0x2070); (0x2074, 0x2079); (0x2080, 0x2089); (0x2460, 0x2468);
    (0x2474, 0x247C); (0x2488, 0x2490); (0x24EA, 0x24EA); (0x24F5, 0x24FD);
    (0x24FF, 0x24FF); (0x2776, 0x277E); (0x2780, 0x2788); (0x278A, 0x2792);
    (0xA620, 0xA629); (0xA8D0, 0xA8D9); (0xA900, 0xA909); (0xA9D0, 0xA9D9);
    (0xA9F0, 0xA9F9); (0xAA50, 0xAA59); (0xABF0, 0xABF9); (0xFF10, 0xFF19);
    (0x104A0, 0x104A9); (0x10A40, 0x10A43); (0x10D30, 0x10D39);
    (0x10E60, 0x10E68); (0x11052, 0x1105A); (0x11066, 0x1106F);
    (0x110F0, 0x110F9); (0x11136, 0x1113F); (0x111D0, 0x111D9);
    (0x112F0, 0x112F9); (0x11450, 0x11459); (0x114D0, 0x114D9);
    (0x11650, 0x11659); (0x116C0, 0x116C9); (0x11730, 0x11739);
    (0x118E0, 0x118E9); (0x11950, 0x11959); (0x11C50, 0x11C59);
    (0x11D50, 0x11D59); (0x11DA0, 0x11DA9); (0x16A60, 0x16A69);
    (0x16AC0, 0x16AC9); (0x16B50, 0x16B59); (0x1D7CE, 0x1D7FF);
    (0x1E140, 0x1E149); (0x1E2F0, 0x1E2F9); (0x1E950, 0x1E959);
    (0x1F100, 0x1F10A); (0x1FBF0, 0x1FBF9) ].

Definition isdigit_char (c : char) : bool :=
  existsb (fun r => between (fst r) (snd r) c) digit_ranges.

(** ** Methods *)

(** Truth value of a string: non-empty. *)
Definition truthy {A : Type} (s : list A) : bool :=
  match s with [] => false | _ :: _ => true end.

(** [s.isdigit()]: every character is a digit and there is at least one. *)
Definition isdigit (s : str) : bool := truthy s && forallb isdigit_char s.

Fixpoint lstrip (s : str) : str :=
  match s with
  | [] => []
  | c :: rest => if isspace c then lstrip rest else s
  end.

Definition rstrip (s : str) : str := rev (lstrip (rev s)).

(** [s.strip()] *)
Definition strip (s : str) : str := rstrip (lstrip s).

(** [s.splitlines()]: cut at every line boundary, CR LF counting as one;
    a final boundary opens no further line. *)
Fixpoint splitlines (s : str) : list str :=
  match s with
  | [] => []
  | c :: rest =>
      if islinebreak c then
        [] :: match rest with
              | c' :: rest' =>
                  if (c =? CR) && (c' =? LF) then splitlines rest'
                  else splitlines rest
              | [] => []
              end
      else
        match splitlines rest with
        | [] => [[c]]
        | line :: more => (c :: line) :: more
        end
  end.

(** [sep in s] for a one-character [sep]. *)
Definition contains (sep : char) (s : str) : bool := existsb (N.eqb sep) s.

(** The text before and after the first [sep], when there is one. *)
Fixpoint partition (sep : char) (s : str) : option (str * str) :=
  match s with
  | [] => None
  | c :: rest =>
      if c =? sep then Some ([], rest)
      else match partition sep rest with
           | Some (before, after) => Some (c :: before, after)
           | None => None
           end
  end.

(** [s.split(sep, 1)] for a one-character [sep]. *)
Definition split1 (sep : char) (s : str) : list str :=
  match partition sep s with
  | Some (before, after) => [before; after]
  | None => [s]
  end.

(** [sep.join(parts)] *)
Fixpoint join (sep : str) (parts : list str) : str :=
  match parts with
  | [] => []
  | [p] => p
  | p :: more => p ++ sep ++ join sep more
  end.

(** [str(n)] for an [int]. *)
Definition str_of_int (n : Z) : str :=
  u (NilZero.string_of_int (Z.to_int n)).

End PyStr.
Import PyStr.

(* ================================================================== *)
(** * Exceptions *)
(* ================================================================== *)

(** The subclasses of [Exception] the script can meet: the two lookups
    of the parser, the two errors of template formatting, and whatever the
    completion client raises (transport, authentication, rate limit,
    malformed response), kept with its message. *)
Inductive exn : Type :=
| IndexError (msg : str)
| KeyError (key : str)
| ValueError (msg : str)
| ClientError (msg : str).

(** [str(e)] *)
Definition exn_str (e : exn) : str :=
  match e with
  | IndexError msg | ValueError msg | ClientError msg => msg
  | KeyError key => u "'" ++ key ++ u "'"
  end.

Inductive result (A : Type) : Type :=
| Ok (a : A)
| Raise (e : exn).
Arguments Ok {A} a.
Arguments Raise {A} e.

Definition bind {A B : Type} (m : result A) (k : A -> result B) : result B :=
  match m with
  | Ok a => k a
  | Raise e => Raise e
  end.

Declare Scope py_scope.
Delimit Scope py_scope with py.
Notation "x <- m ;; k" := (bind m (fun x => k))
  (at level 61, m at next level, right associativity) : py_scope.
Open Scope py_scope.

(** [s[i]] on a string: a one-character string. *)
Definition str_getitem (s : str) (i : nat) : result str :=
  match nth_error s i with
  | Some c => Ok [c]
  | None => Raise (IndexError (u "string index out of range"))
  end.

(** [l[i]] on a list. *)
Definition list_getitem {A : Type} (l : list A) (i : nat) : result A :=
  match nth_error l i with
  | Some x => Ok x
  | None => Raise (IndexError (u "list index out of range"))
  end.

(* ================================================================== *)
(** * The response parser *)
(* ================================================================== *)

Definition dot : char := 0x2E%N.
Definition rparen : char := 0x29%N.

(** [[line.strip() for line in raw.strip().splitlines() if line.strip()]] *)
Definition lines (raw : str) : list str :=
  map strip (filter (fun line => truthy (strip line)) (splitlines (strip raw))).

(** The body of the loop: from one line to the caption appended. *)
Definition clean_line (line : str) : result str :=
  let cleaned := line in
  first <- str_getitem cleaned 0 ;;
  if isdigit first then
    if contains dot cleaned then
      rest <- list_getitem (split1 dot cleaned) 1 ;;
      Ok (strip rest)
    else if contains rparen cleaned then
      rest <- list_getitem (split1 rparen cleaned) 1 ;;
      Ok (strip rest)
    else Ok cleaned
  else Ok cleaned.

(** [for line in lines: ... captions.append(cleaned)] *)
Fixpoint for_lines (lines : list str) (captions : list str) : result (list str) :=
  match lines with
  | [] => Ok captions
  | line :: more =>
      cleaned <- clean_line line ;;
      for_lines more (captions ++ [cleaned])
  end.

Definition parse_captions (raw : str) : result (list str) :=
  for_lines (lines raw) [].


(* ================================================================== *)
(** * The prompt builder *)
(* ================================================================== *)

Inductive role : Type := system | human.

(** A message template and a chat prompt: the roles and template texts
    that [SystemMessagePromptTemplate.from_template],
    [HumanMessagePromptTemplate.from_template] and
    [ChatPromptTemplate.from_messages] put together. *)
Record MessagePromptTemplate : Type :=
  { template_role : role; template : str }.

Definition ChatPromptTemplate := list MessagePromptTemplate.

Definition SystemMessagePromptTemplate (t : str) : MessagePromptTemplate :=
  {| template_role := system; template := t |}.

Definition HumanMessagePromptTemplate (t : str) : MessagePromptTemplate :=
  {| template_role := human; template := t |}.

(** The f-string of [build_prompt_template], line by line. *)
Definition system_message (platform tone : str) (num_variants : Z) : str :=
  nl
  ++ u "You are an expert copywriter for social media. " ++ nl
  ++ u "Given a content description, generate " ++ str_of_int num_variants
  ++ u " unique short captions tailored for " ++ platform
  ++ u " in a " ++ tone ++ u " tone." ++ nl
  ++ u "Each caption should:" ++ nl
  ++ u "- Fit typical length constraints of " ++ platform
  ++ u " (keep it concise)" ++ nl
  ++ u "- Include 1-3 relevant hashtags at the end" ++ nl
  ++ u "- Be distinct from each other" ++ nl
  ++ u "Return the captions as a numbered list (1., 2., ...) with the caption only (no extra explanation)."
  ++ nl.

(** A plain string, not an f-string: the braces stay in the template. *)
Definition human_template : str :=
  nl ++ u "Content description:" ++ nl ++ u "{description}" ++ nl.

Definition build_prompt_template
    (platform tone description : str) (num_variants : Z) (language : str)
    : ChatPromptTemplate :=
  [ SystemMessagePromptTemplate (system_message platform tone num_variants);
    HumanMessagePromptTemplate human_template ].

(** The prompt of the summary chain, and its system instruction. *)
Definition summary_instruction : str :=
  u "あなたは日本語の要約の専門家です。以下の内容説明を読み、読み手に伝わりやすい自然な日本語で、短く一文に要約してください。".

Definition summary_prompt : ChatPromptTemplate :=
  [ SystemMessagePromptTemplate summary_instruction;
    HumanMessagePromptTemplate (u "{description}") ].

(** ** Formatting a template

    Templates are f-string templates, filled in by [str.format] when the
    chain runs: [{name}] is replaced by the input of that name, a doubled
    brace stands for one brace, a single one is an error. Conversions,
    format specifications and attribute or index access inside a field are
    not modelled; neither template of the script has any. The chain's own
    check that every name of the template is among its inputs is not kept
    apart from formatting: a missing name is the [KeyError] of the
    formatting, inside the same [try]. *)

Definition lbrace : char := 0x7B%N.
Definition rbrace : char := 0x7D%N.

Definition eqb_str (a b : str) : bool :=
  if list_eq_dec N.eq_dec a b then true else false.

Definition kwargs := list (str * str).

(** The value of the field [name]; the script passes keyword inputs
    only, so the positional field [{}] finds nothing. *)
Definition kwargs_get (kw : kwargs) (name : str) : result str :=
  match name with
  | [] => Raise (IndexError
            (u "Replacement index 0 out of range for positional args tuple"))
  | _ :: _ =>
      match find (fun p => eqb_str (fst p) name) kw with
      | Some p => Ok (snd p)
      | None => Raise (KeyError name)
      end
  end.

(** [field] is [None] in literal text and [Some name] inside a field,
    [name] holding the characters read so far, last one first. *)
Fixpoint format_from (kw : kwargs) (t : str) (field : option str) : result str :=
  match t with
  | [] =>
      match field with
      | None => Ok []
      | Some _ => Raise (ValueError (u "expected '}' before end of string"))
      end
  | c :: rest =>
      match field with
      | Some name =>
          if (c =? rbrace)%N then
            value <- kwargs_get kw (rev name) ;;
            tail <- format_from kw rest None ;;
            Ok (value ++ tail)
          else if (c =? lbrace)%N then
            Raise (ValueError (u "unexpected '{' in field name"))
          else format_from kw rest (Some (c :: name))
      | None =>
          if (c =? lbrace)%N then
            match rest with
            | c' :: rest' =>
                if (c' =? lbrace)%N then
                  tail <- format_from kw rest' None ;; Ok (lbrace :: tail)
                else format_from kw rest (Some [])
            | [] => Raise (ValueError (u "Single '{' encountered in format string"))
            end
          else if (c =? rbrace)%N then
            match rest with
            | c' :: rest' =>
                if (c' =? rbrace)%N then
                  tail <- format_from kw rest' None ;; Ok (rbrace :: tail)
                else Raise (ValueError (u "Single '}' encountered in format string"))
            | [] => Raise (ValueError (u "Single '}' encountered in format string"))
            end
          else
            tail <- format_from kw rest None ;; Ok (c :: tail)
      end
  end.

Definition format (t : str) (kw : kwargs) : result str := format_from kw t None.

(** A formatted message: what the completion service receives. *)
Definition message : Type := role * str.

Fixpoint format_messages (prompt : ChatPromptTemplate) (kw : kwargs)
    : result (list message) :=
  match prompt with
  | [] => Ok []
  | m :: more =>
      text <- format (template m) kw ;;
      others <- format_messages more kw ;;
      Ok ((template_role m, text) :: others)
  end.

(* ================================================================== *)
(** * The submission script *)
(* ================================================================== *)

(** What a run does that can be seen from outside: the Streamlit elements
    it renders and the requests it sends to the completion service. *)
Inductive event : Type :=
| st_error (body : str)
| st_exception (body : str)
| st_spinner (text : str)
| st_subheader (body : str)
| st_markdown (body : str)
| st_code (body : str)
| st_text_area (label value : str)
| st_info (body : str)
| completion_request (messages : list message).

(** What unwinds the script: an [Exception], which [except Exception]
    catches, or the control-flow exception of [st.stop()], which it does
    not. *)
Inductive signal : Type :=
| Exception (e : exn)
| StopException.

(** A piece of script: from the events so far to the events after it and
    either its value or the signal that left it. *)
Definition script (A : Type) : Type := list event -> list event * (A + signal).

Definition ret {A : Type} (a : A) : script A := fun log => (log, inl a).

Definition sbind {A B : Type} (m : script A) (k : A -> script B) : script B :=
  fun log =>
    match m log with
    | (log', inl a) => k a log'
    | (log', inr s) => (log', inr s)
    end.

Declare Scope script_scope.
Delimit Scope script_scope with script.
Notation "x <- m ;; k" := (sbind m (fun x => k))
  (at level 61, m at next level, right associativity) : script_scope.
Notation "m ;; k" := (sbind m (fun _ => k))
  (at level 61, right associativity) : script_scope.

Definition emit (e : event) : script unit := fun log => (log ++ [e], inl tt).

Definition lift {A : Type} (r : result A) : script A :=
  fun log =>
    match r with
    | Ok a => (log, inl a)
    | Raise e => (log, inr (Exception e))
    end.

(** [st.stop()] *)
Definition st_stop {A : Type} : script A := fun log => (log, inr StopException).

(** [try: body except Exception as e: handler] *)
Definition try_except {A : Type} (body : script A) (handler : exn -> script A)
    : script A :=
  fun log =>
    match body log with
    | (log', inr (Exception e)) => handler e log'
    | r => r
    end.

(** [for x in xs: body] *)
Fixpoint for_each {A : Type} (xs : list A) (body : A -> script unit) : script unit :=
  match xs with
  | [] => ret tt
  | x :: more => sbind (body x) (fun _ => for_each more body)
  end.

Definition is_request (e : event) : bool :=
  match e with completion_request _ => true | _ => false end.

(** The requests sent so far. *)
Definition requests (log : list event) : list event := filter is_request log.

(** [l[:n]] *)
Definition slice_to {A : Type} (l : list A) (n : Z) : list A :=
  if (0 <=? n)%Z then firstn (Z.to_nat n) l
  else firstn (List.length l - Z.to_nat (- n)) l.

(** [enumerate(l, start=1)] *)
Definition enumerate1 {A : Type} (l : list A) : list (Z * A) :=
  combine (map Z.of_nat (seq 1 (List.length l))) l.

Section Submission.

Local Open Scope script_scope.

(** The collaborators. [ChatOpenAI] is the construction of the client
    (temperature 0.7, model gpt-4o, at most 400 tokens), which fails when
    it is misconfigured; [completion n messages] is the service's answer to
    the request [messages] when [n] requests came before it: a text, or
    the exception the client raises. *)
Variable ChatOpenAI : result unit.
Variable completion : nat -> list message -> result str.

(** The form's fields. *)
Variables description platform tone language : str.
Variable num_variants : Z.

(** [LLMChain(llm=llm, prompt=prompt).run(inputs)]: fill the prompt in,
    send it, hand back the text of the answer. *)
Definition LLMChain_run (prompt : ChatPromptTemplate) (inputs : kwargs)
    : script str :=
  messages <- lift (format_messages prompt inputs) ;;
  fun log =>
    (emit (completion_request messages) ;;
     lift (completion (List.length (requests log)) messages)) log.

Definition inputs : kwargs := [(u "description", description)].

(** [if not description.strip(): st.error(...); st.stop()] *)
Definition validation : script unit :=
  if negb (truthy (strip description)) then
    emit (st_error (u "説明を入力してください。")) ;;
    st_stop
  else ret tt.

(** The [with st.spinner(...)] block: the [try] that yields [captions]. *)
Definition generation : script (list str) :=
  emit (st_spinner (u "キャプションを生成中...")) ;;
  try_except
    (llm <- lift ChatOpenAI ;;
     let prompt :=
       build_prompt_template platform tone description num_variants language in
     raw_output <- LLMChain_run prompt inputs ;;
     captions <- lift (parse_captions raw_output) ;;
     if negb (truthy captions) then ret [strip raw_output]
     else ret captions)
    (fun e =>
       emit (st_exception (u "生成中にエラーが発生しました: " ++ exn_str e)) ;;
       st_stop).

(** The caption list as rendered: one block per caption, then the block
    for copying. *)
Definition joined (captions : list str) : str :=
  join nl (map (fun ic => str_of_int (fst ic) ++ u ". " ++ snd ic)
               (enumerate1 (slice_to captions num_variants))).

Definition display (captions : list str) : script unit :=
  emit (st_subheader (u "キャプション案")) ;;
  for_each (enumerate1 (slice_to captions num_variants))
    (fun ic =>
       emit (st_markdown (u "**" ++ str_of_int (fst ic) ++ u ".** " ++ snd ic)) ;;
       emit (st_code (snd ic)) ;;
       emit (st_markdown (u "---"))) ;;
  emit (st_subheader (u "まとめてコピー")) ;;
  emit (st_text_area (u "全案（コピー用）") (joined captions)).

(** The optional summary: a second chain, inside its own [try]. *)
Definition summary : script unit :=
  emit (st_subheader (u "説明の要約（任意）")) ;;
  try_except
    (text <- LLMChain_run summary_prompt inputs ;;
     emit (st_info (u "要約: " ++ strip text)))
    (fun _ => emit (st_info (u "要約は生成できませんでした。"))).

(** Everything up to the rendered captions. *)
Definition captions_part : script unit :=
  validation ;;
  captions <- generation ;;
  display captions.

(** [if submitted: ...] *)
Definition on_submit (submitted : bool) : script unit :=
  if submitted then captions_part ;; summary
  else ret tt.

End Submission.

(* ================================================================== *)
(** * The specification's wording *)
(* ================================================================== *)

(** Everything after the first occurrence of [sep]. *)
Fixpoint after_first (sep : char) (s : str) : str :=
  match s with
  | [] => []
  | c :: rest => if (c =? sep)%N then rest else after_first sep rest
  end.

Definition starts_with_digit (line : str) : bool :=
  match line with
  | c :: _ => isdigit_char c
  | [] => false
  end.

(** The cleaning rule as the specification words it: what follows the
    first "." if there is one, else what follows the first ")" if there is
    one, else the line. *)
Definition marker_cut (line : str) : str :=
  if starts_with_digit line then
    if contains dot line then after_first dot line
    else if contains rparen line then after_first rparen line
    else line
  else line.

(** The same rule with what follows the marker trimmed. *)
Definition marker_stripped (line : str) : str :=
  if starts_with_digit line then
    if contains dot line then strip (after_first dot line)
    else if contains rparen line then strip (after_first rparen line)
    else line
  else line.

(** [x] occurs in [s]. *)
Definition occurs_in (x s : str) : Prop :=
  exists before after, s = before ++ x ++ after.

Definition brace_free (s : str) : bool :=
  forallb (fun c => negb (c =? lbrace)%N && negb (c =? rbrace)%N) s.

(** The option lists of the form. *)
Definition platform_options : list str :=
  [ u "Instagram"; u "Twitter"; u "X"; u "Facebook"; u "TikTok";
    u "LinkedIn"; u "Threads" ].

Definition tone_options : list str :=
  [ u "カジュアル"; u "エモーショナル"; u "プロフェッショナル"; u "ユーモラス";
    u "シンプル"; u "情熱的" ].

(** A request as the form can submit it: the platform and the tone are
    among the options and the count is within the slider's range. *)
Definition well_formed (platform tone : str) (num_variants : Z) : Prop :=
  In platform platform_options /\ In tone tone_options
  /\ (3 <= num_variants <= 8)%Z.

(** ** Sample inputs *)

Definition two_numbered : str :=
  u "1. Sunny beach day #summer #vibes" ++ nl ++ u "2. Coffee and a good book #mood".

Definition eight_numbered : str :=
  join nl [ u "1. one #a"; u "2. two #b"; u "3. three #c"; u "4. four #d";
            u "5. five #e"; u "6. six #f"; u "7. seven #g"; u "8. eight #h" ].

(** A service that answers the caption request with blanks only, and one
    that answers it with a list and then fails. *)
Definition blank_completion (n : nat) (messages : list message) : result str :=
  Ok (u "  " ++ nl ++ u " ").

Definition failing_summary (n : nat) (messages : list message) : result str :=
  match n with
  | O => Ok two_numbered
  | S _ => Raise (ClientError (u "rate limit"))
  end.


(** ** Notions for the further properties *)

(** Made of whitespace only. *)
Definition blank (s : str) : bool := forallb isspace s.

(** Free of line boundaries. *)
Definition one_line (s : str) : bool :=
  forallb (fun c => negb (islinebreak c)) s.

(** Where [splitlines] goes on after the line boundary [c]: past the LF
    of a CR LF pair, else right behind [c]. *)
Definition after_break (c : char) (rest : str) : str :=
  match rest with
  | c' :: rest' => if ((c =? CR) && (c' =? LF))%N then rest' else rest
  | [] => []
  end.

(** What the comprehension of [parse_captions] keeps of a list of lines:
    the lines that are not blank, each trimmed. *)
Definition keep_lines (ls : list str) : list str :=
  map strip (filter (fun line => truthy (strip line)) ls).

(** A service that refuses every request. *)
Definition failing_completion (n : nat) (messages : list message) : result str :=
  Raise (ClientError (u "rate limit")).

(** One of the characters "0" to "9". *)
Definition ascii_digit (c : char) : bool := between 0x30%N 0x39%N c.

(** The bodies of the code blocks among rendered elements, in order. *)
Definition code_blocks (log : list event) : list str :=
  flat_map (fun e => match e with st_code body => [body] | _ => [] end) log.

(** A run left by an [Exception] that nothing caught. *)
Definition uncaught {A : Type} (r : list event * (A + signal)) : Prop :=
  exists e, snd r = inr (Exception e).

(* ================================================================== *)
(** * Strings: trimming and splitting *)
(* ================================================================== *)

(** The decoding of literals, on an ASCII and on a kana one. *)
Example u_ascii : u "1. a" = [49; 46; 32; 97]%N.
Proof. reflexivity. Qed.

Example u_kana : u "カジュアル" = [12459; 12472; 12517; 12450; 12523]%N.
Proof. reflexivity. Qed.

Section StripFacts.

Lemma lstrip_cases (s : str) :
  lstrip s = [] \/ exists c r, lstrip s = c :: r /\ isspace c = false.
Proof.
  induction s as [|c s IH]; simpl; [now left|].
  destruct (isspace c) eqn:E; [exact IH|].
  right. now exists c, s.
Qed.

Lemma lstrip_idem (s : str) : lstrip (lstrip s) = lstrip s.
Proof.
  destruct (lstrip_cases s) as [-> | (c & r & -> & E)]; [reflexivity|].
  simpl. now rewrite E.
Qed.

Lemma lstrip_app (a b : str) :
  lstrip (a ++ b) =
  match lstrip a with [] => lstrip b | _ :: _ => lstrip a ++ b end.
Proof.
  induction a as [|c a IH]; simpl; [reflexivity|].
  destruct (isspace c); [exact IH | reflexivity].
Qed.

Lemma lstrip_blank (s : str) : forallb isspace s = true -> lstrip s = [].
Proof.
  induction s as [|c s IH]; simpl; [reflexivity|].
  intros H. apply andb_true_iff in H as [-> H]. auto.
Qed.

Lemma rstrip_idem (s : str) : rstrip (rstrip s) = rstrip s.
Proof.
  unfold rstrip. now rewrite rev_involutive, lstrip_idem.
Qed.

Lemma lstrip_rstrip (t : str) : lstrip t = t -> lstrip (rstrip t) = rstrip t.
Proof.
  intros Ht. destruct t as [|c r]; [reflexivity|].
  assert (Ec : isspace c = false).
  { destruct (lstrip_cases (c :: r)) as [E | (c' & r' & E & E')];
      rewrite Ht in E; [discriminate | now injection E as -> _]. }
  unfold rstrip. simpl rev. rewrite lstrip_app.
  assert (Hc : lstrip [c] = [c]) by (simpl; now rewrite Ec).
  destruct (lstrip (rev r)) as [|x y]; rewrite ?Hc; simpl rev;
    [| rewrite rev_app_distr]; simpl; now rewrite Ec.
Qed.

Lemma strip_idem (s : str) : strip (strip s) = strip s.
Proof.
  unfold strip.
  rewrite (lstrip_rstrip (lstrip s) (lstrip_idem s)).
  apply rstrip_idem.
Qed.

Lemma strip_blank (s : str) : forallb isspace s = true -> strip s = [].
Proof.
  intros H. unfold strip. now rewrite (lstrip_blank s H).
Qed.

End StripFacts.

Section SplitFacts.

Variable sep : char.

Lemma partition_contains (s : str) :
  contains sep s = true ->
  exists before, partition sep s = Some (before, after_first sep s).
Proof.
  induction s as [|c s IH]; simpl; [discriminate|].
  rewrite (N.eqb_sym sep c).
  destruct (c =? sep)%N; simpl; intros H.
  - now exists [].
  - destruct (IH H) as (before & ->). now exists (c :: before).
Qed.

Lemma split1_second (s : str) :
  contains sep s = true ->
  list_getitem (split1 sep s) 1 = Ok (after_first sep s).
Proof.
  intros H. unfold split1.
  destruct (partition_contains s H) as (before & ->). reflexivity.
Qed.

Lemma after_first_last (body : str) :
  contains sep body = false -> after_first sep (body ++ [sep]) = [].
Proof.
  induction body as [|c s IH]; simpl.
  - now rewrite N.eqb_refl.
  - rewrite (N.eqb_sym sep c). destruct (c =? sep)%N; simpl; [discriminate | exact IH].
Qed.

Lemma contains_app (a b : str) :
  contains sep (a ++ b) = contains sep a || contains sep b.
Proof. apply existsb_app. Qed.

End SplitFacts.

(* ================================================================== *)
(** * The parser: general facts *)
(* ================================================================== *)

Lemma isdigit_one (c : char) : isdigit [c] = isdigit_char c.
Proof. unfold isdigit. simpl. now rewrite andb_true_r. Qed.

(** On a non-empty line the loop body raises nothing and computes
    [marker_stripped]. *)
Lemma clean_line_ok (line : str) :
  line <> [] -> clean_line line = Ok (marker_stripped line).
Proof.
  destruct line as [|c rest]; [easy|]. intros _.
  unfold clean_line, marker_stripped, starts_with_digit.
  cbn [str_getitem nth_error bind]. rewrite isdigit_one.
  destruct (isdigit_char c); [|reflexivity].
  destruct (contains dot (c :: rest)) eqn:Ed.
  - now rewrite (split1_second _ _ Ed).
  - destruct (contains rparen (c :: rest)) eqn:Ep; [|reflexivity].
    now rewrite (split1_second _ _ Ep).
Qed.

Lemma for_lines_ok (ls captions : list str) :
  Forall (fun line => line <> []) ls ->
  for_lines ls captions = Ok (captions ++ map marker_stripped ls).
Proof.
  intros H. revert captions.
  induction H as [|line more Hline _ IH]; intros captions; simpl.
  - now rewrite app_nil_r.
  - rewrite (clean_line_ok line Hline). simpl.
    rewrite IH, <- app_assoc. reflexivity.
Qed.

Lemma lines_trimmed (raw : str) :
  Forall (fun line => line <> [] /\ strip line = line) (lines raw).
Proof.
  apply Forall_forall. intros line Hin. unfold lines in Hin.
  apply in_map_iff in Hin as (l & <- & Hl).
  apply filter_In in Hl as [_ Hl].
  split; [| apply strip_idem].
  destruct (strip l); [discriminate | easy].
Qed.

Lemma lines_nonempty (raw : str) : Forall (fun line => line <> []) (lines raw).
Proof.
  eapply Forall_impl; [| apply lines_trimmed]. now intros l [H _].
Qed.

Lemma parse_captions_ok (raw : str) :
  parse_captions raw = Ok (map marker_stripped (lines raw)).
Proof. unfold parse_captions. now rewrite (for_lines_ok (lines raw) [] (lines_nonempty raw)). Qed.

(** Line boundaries are whitespace, so a text that is not blank has a
    first line that is not blank. *)
Lemma islinebreak_isspace (c : char) : islinebreak c = true -> isspace c = true.
Proof.
  unfold islinebreak, isspace, between.
  rewrite !orb_true_iff, !andb_true_iff, !N.leb_le, !N.eqb_eq. lia.
Qed.

Lemma strip_cases (s : str) :
  strip s = [] \/ exists c r, strip s = c :: r /\ isspace c = false.
Proof.
  pose proof (lstrip_rstrip (lstrip s) (lstrip_idem s)) as E.
  fold (strip s) in E. rewrite <- E. apply lstrip_cases.
Qed.

Lemma strip_cons (c : char) (l : str) : isspace c = false -> strip (c :: l) <> [].
Proof.
  intros Hc. unfold strip. cbn [lstrip]. rewrite Hc.
  unfold rstrip. cbn [rev]. rewrite lstrip_app.
  assert (E : lstrip [c] = [c]) by (cbn; now rewrite Hc).
  destruct (lstrip (rev l)) as [|x y]; rewrite ?E; cbn [rev app];
    intros H; apply (f_equal (@List.length char)) in H;
    rewrite ?length_app in H; cbn in H; lia.
Qed.

Lemma splitlines_head (c : char) (r : str) :
  islinebreak c = false ->
  exists l more, splitlines (c :: r) = (c :: l) :: more.
Proof.
  intros H. cbn [splitlines]. rewrite H. destruct (splitlines r); eauto.
Qed.

Lemma lines_nil (raw : str) : lines raw = [] <-> strip raw = [].
Proof.
  split.
  - intros H. destruct (strip_cases raw) as [E | (c & r & E & Hc)]; [exact E|].
    exfalso. unfold lines in H. rewrite E in H.
    destruct (islinebreak c) eqn:Hlb;
      [apply islinebreak_isspace in Hlb; congruence|].
    destruct (splitlines_head c r Hlb) as (l & more & Hs).
    rewrite Hs in H. cbn [filter] in H.
    pose proof (strip_cons c l Hc) as Hne.
    destruct (strip (c :: l)) eqn:El; [now apply Hne|].
    cbn [truthy map] in H. discriminate.
  - intros H. unfold lines. now rewrite H.
Qed.

(** The parser finds no caption exactly when the text is blank. *)
Lemma parse_captions_nil (raw : str) :
  parse_captions raw = Ok [] <-> strip raw = [].
Proof.
  rewrite parse_captions_ok, <- lines_nil. split.
  - intros H. injection H as H. now destruct (lines raw).
  - now intros ->.
Qed.

Lemma parse_captions_nth (raw : str) (i : nat) (line : str) :
  nth_error (lines raw) i = Some line ->
  exists captions,
    parse_captions raw = Ok captions
    /\ nth_error captions i = Some (marker_stripped line).
Proof.
  intros H. exists (map marker_stripped (lines raw)).
  split; [apply parse_captions_ok|].
  rewrite nth_error_map, H. reflexivity.
Qed.

(* ================================================================== *)
(** * Properties of the parser *)
(* ================================================================== *)

(** C1, as worded: the caption of a digit-initial line is everything after
    its first "." (or ")"). On the specification's own first example the
    parser returns the text after the marker without the blank that
    follows the marker, which is not everything after the ".". *)
Lemma marker_cut_counterexample :
  let line := u "1. Sunny beach day #summer #vibes" in
  lines line = [line]
  /\ marker_cut line = u " Sunny beach day #summer #vibes"
  /\ parse_captions line = Ok [u "Sunny beach day #summer #vibes"]
  /\ parse_captions line <> Ok (map marker_cut (lines line)).
Proof.
  cbv zeta. repeat apply conj; try (vm_compute; reflexivity).
  vm_compute. discriminate.
Qed.

(** C1, amended: [parse_captions] splits its input into non-empty trimmed
    lines and maps each, in order, to [marker_stripped]: for a line whose
    first character is a digit, what follows the first "." if the line has
    one, else what follows the first ")" if it has one, in both cases
    trimmed of surrounding whitespace, else the line; a line not starting
    with a digit is kept. The three examples of the specification hold. *)
Theorem parse_captions_marker_stripped :
  (forall raw,
     parse_captions raw = Ok (map marker_stripped (lines raw))
     /\ Forall (fun line => line <> [] /\ strip line = line) (lines raw))
  /\ parse_captions two_numbered
     = Ok [ u "Sunny beach day #summer #vibes"; u "Coffee and a good book #mood" ]
  /\ parse_captions (u "- Just a dash line") = Ok [ u "- Just a dash line" ]
  /\ parse_captions (u "") = Ok [].
Proof.
  split; [| repeat apply conj; vm_compute; reflexivity].
  intros raw. split; [apply parse_captions_ok | apply lines_trimmed].
Qed.

(** C2: the captions come in the order of the input's lines, one per
    non-empty trimmed line, so there are at most as many as such lines.
    The parser takes no count: nothing is cut, nothing is merged and no
    line is dropped for its content. Eight numbered lines give eight
    captions, of which the display of a request for three keeps three, and
    a repeated line without any hashtag is returned twice. *)
Theorem parse_captions_keeps_every_line :
  (forall raw, exists captions,
     parse_captions raw = Ok captions
     /\ List.length captions = List.length (lines raw)
     /\ List.length captions <= List.length (lines raw)
     /\ forall i line, nth_error (lines raw) i = Some line ->
          nth_error captions i = Some (marker_stripped line))
  /\ (exists captions,
        parse_captions eight_numbered = Ok captions
        /\ List.length captions = 8
        /\ List.length (slice_to captions 3) = 3)
  /\ parse_captions (u "same" ++ nl ++ u "same") = Ok [ u "same"; u "same" ].
Proof.
  split; [| split].
  - intros raw. exists (map marker_stripped (lines raw)).
    split; [apply parse_captions_ok|].
    rewrite length_map. repeat apply conj; [reflexivity | lia |].
    intros i line H. now rewrite nth_error_map, H.
  - eexists. split; [| split]; vm_compute; reflexivity.
  - vm_compute. reflexivity.
Qed.

Lemma parse_captions_keeps_every_line_witness :
  nth_error (lines two_numbered) 1 = Some (u "2. Coffee and a good book #mood")
  /\ exists captions,
       parse_captions two_numbered = Ok captions
       /\ nth_error captions 1 = Some (u "Coffee and a good book #mood").
Proof.
  split; [vm_compute; reflexivity|].
  destruct (proj1 parse_captions_keeps_every_line two_numbered)
    as (captions & Hp & _ & _ & Hnth).
  exists captions. split; [exact Hp|].
  apply (Hnth 1%nat (u "2. Coffee and a good book #mood")).
  vm_compute. reflexivity.
Defined.

(** C3: [parse_captions] raises on no input. A line that starts with a
    digit and has neither "." nor ")" is left as it is by the cleaning
    step and appended unchanged, a line made of one digit included; so
    "5 no delimiter here" comes back as the only caption. *)
Theorem parse_captions_never_raises :
  (forall raw, exists captions, parse_captions raw = Ok captions)
  /\ (forall c rest,
        isdigit_char c = true ->
        contains dot (c :: rest) = false ->
        contains rparen (c :: rest) = false ->
        clean_line (c :: rest) = Ok (c :: rest)
        /\ forall more captions,
             for_lines ((c :: rest) :: more) captions
             = for_lines more (captions ++ [c :: rest]))
  /\ parse_captions (u "5 no delimiter here") = Ok [ u "5 no delimiter here" ].
Proof.
  split; [| split; [| vm_compute; reflexivity]].
  - intros raw. eexists. apply parse_captions_ok.
  - intros c rest Hc Hdot Hpar.
    assert (E : clean_line (c :: rest) = Ok (c :: rest)).
    { unfold clean_line. cbn [str_getitem nth_error bind].
      now rewrite isdigit_one, Hc, Hdot, Hpar. }
    split; [exact E|]. intros more captions.
    cbn [for_lines]. now rewrite E.
Qed.

Lemma parse_captions_never_raises_witness :
  isdigit_char 0x35%N = true
  /\ contains dot (u "5") = false
  /\ contains rparen (u "5") = false
  /\ clean_line (u "5") = Ok (u "5").
Proof.
  split; [| split; [| split]]; [vm_compute; reflexivity .. |].
  apply (proj1 (proj2 parse_captions_never_raises) 0x35%N []);
    vm_compute; reflexivity.
Defined.

(** C10: a caption can be the empty string. When a line starts with a
    digit and its first "." is its last character, or it has no "." and
    its first ")" is its last character, the cleaned line is empty, and it
    is what the returned list holds at that line's position; "1." gives
    the list with the empty string alone. *)
Theorem parse_captions_empty_caption :
  (forall c body,
     isdigit_char c = true ->
     contains dot (c :: body) = false ->
     clean_line ((c :: body) ++ [dot]) = Ok [])
  /\ (forall c body,
        isdigit_char c = true ->
        contains dot (c :: body) = false ->
        contains rparen (c :: body) = false ->
        clean_line ((c :: body) ++ [rparen]) = Ok [])
  /\ (forall raw i line,
        nth_error (lines raw) i = Some line ->
        clean_line line = Ok [] ->
        exists captions,
          parse_captions raw = Ok captions /\ nth_error captions i = Some [])
  /\ parse_captions (u "1.") = Ok [ [] ]
  /\ ~ (forall raw captions,
          parse_captions raw = Ok captions ->
          Forall (fun caption => caption <> []) captions).
Proof.
  split; [| split; [| split; [| split]]].
  - intros c body Hc Hdot.
    rewrite clean_line_ok by discriminate.
    unfold marker_stripped.
    change (starts_with_digit ((c :: body) ++ [dot])) with (isdigit_char c).
    rewrite Hc, contains_app, Hdot, (after_first_last dot (c :: body) Hdot).
    reflexivity.
  - intros c body Hc Hdot Hpar.
    rewrite clean_line_ok by discriminate.
    unfold marker_stripped.
    change (starts_with_digit ((c :: body) ++ [rparen])) with (isdigit_char c).
    rewrite Hc, !contains_app, Hdot, Hpar,
      (after_first_last rparen (c :: body) Hpar).
    reflexivity.
  - intros raw i line Hnth Hclean.
    destruct (parse_captions_nth raw i line Hnth) as (captions & Hp & Hc).
    exists captions. split; [exact Hp|].
    assert (Hne : line <> []).
    { pose proof (lines_nonempty raw) as F.
      rewrite Forall_forall in F. apply F. eapply nth_error_In, Hnth. }
    rewrite (clean_line_ok line Hne) in Hclean.
    injection Hclean as E. now rewrite E in Hc.
  - vm_compute. reflexivity.
  - intros H. specialize (H (u "1.") [ [] ]).
    assert (E : parse_captions (u "1.") = Ok [ [] ]) by (vm_compute; reflexivity).
    specialize (H E). inversion H as [| ? ? Hne _]. now apply Hne.
Qed.

Lemma parse_captions_empty_caption_witness :
  isdigit_char 0x31%N = true
  /\ contains dot (u "1") = false
  /\ clean_line (u "1" ++ [dot]) = Ok [].
Proof.
  split; [| split]; [vm_compute; reflexivity .. |].
  apply (proj1 parse_captions_empty_caption 0x31%N []); vm_compute; reflexivity.
Defined.

(* ================================================================== *)
(** * The prompt builder: general facts *)
(* ================================================================== *)

Section FormatFacts.

Variable kw : kwargs.

(** A template without braces is its own formatting. *)
Lemma format_plain (t : str) : brace_free t = true -> format t kw = Ok t.
Proof.
  unfold format. induction t as [|c t IH]; [reflexivity|].
  cbn [brace_free forallb]. intros H.
  apply andb_true_iff in H as [Hc Ht].
  apply andb_true_iff in Hc as [Hl Hr].
  apply negb_true_iff in Hl, Hr.
  cbn [format_from]. rewrite Hl, Hr.
  fold (brace_free t) in Ht. now rewrite (IH Ht).
Qed.

End FormatFacts.

Lemma occurs_in_here (x after : str) : occurs_in x (x ++ after).
Proof. now exists [], after. Qed.

Lemma occurs_in_later (x before s : str) :
  occurs_in x s -> occurs_in x (before ++ s).
Proof.
  intros (b & a & ->). exists (before ++ b), a. now rewrite <- app_assoc.
Qed.

Lemma brace_free_app (a b : str) :
  brace_free (a ++ b) = brace_free a && brace_free b.
Proof. apply forallb_app. Qed.

Lemma platform_brace_free (platform : str) :
  In platform platform_options -> brace_free platform = true.
Proof.
  unfold platform_options. cbn [In]. intros H.
  repeat (destruct H as [<- | H]; [vm_compute; reflexivity|]).
  destruct H.
Qed.

Lemma tone_brace_free (tone : str) :
  In tone tone_options -> brace_free tone = true.
Proof.
  unfold tone_options. cbn [In]. intros H.
  repeat (destruct H as [<- | H]; [vm_compute; reflexivity|]).
  destruct H.
Qed.

(** The requested count is one decimal digit. *)
Lemma num_variants_digit (n : Z) :
  (3 <= n <= 8)%Z -> str_of_int n = [Z.to_N (48 + n)].
Proof.
  intros H.
  assert (E : n = 3%Z \/ n = 4%Z \/ n = 5%Z \/ n = 6%Z \/ n = 7%Z \/ n = 8%Z) by lia.
  repeat (destruct E as [-> | E]; [vm_compute; reflexivity|]).
  subst n. vm_compute. reflexivity.
Qed.

Lemma system_message_brace_free (platform tone : str) (n : Z) :
  brace_free platform = true -> brace_free tone = true ->
  brace_free (str_of_int n) = true ->
  brace_free (system_message platform tone n) = true.
Proof.
  intros Hp Ht Hn. unfold system_message.
  rewrite !brace_free_app, Hp, Ht, Hn. vm_compute. reflexivity.
Qed.

Lemma format_human_template (description : str) :
  format human_template (inputs description)
  = Ok (nl ++ u "Content description:" ++ nl ++ description ++ nl).
Proof. vm_compute. reflexivity. Qed.

Lemma format_summary_prompt (description : str) :
  format_messages summary_prompt (inputs description)
  = Ok [ (system, summary_instruction); (human, description) ].
Proof.
  rewrite <- (app_nil_r description) at 2. vm_compute. reflexivity.
Qed.

(* ================================================================== *)
(** * Properties of the prompt builder *)
(* ================================================================== *)

(** C5: for a request the form can submit, the system instruction sent to
    the service is the f-string filled in, in which the platform, the tone
    and the count in decimal (one digit) occur as they are; the user
    message is the description and nothing else of the request, under the
    label "Content description:". *)
Theorem build_prompt_template_contents
    (platform tone description language : str) (num_variants : Z) :
  well_formed platform tone num_variants ->
  let instruction := system_message platform tone num_variants in
  format_messages
    (build_prompt_template platform tone description num_variants language)
    (inputs description)
  = Ok [ (system, instruction);
         (human, nl ++ u "Content description:" ++ nl ++ description ++ nl) ]
  /\ occurs_in platform instruction
  /\ occurs_in tone instruction
  /\ occurs_in (str_of_int num_variants) instruction
  /\ str_of_int num_variants = [Z.to_N (48 + num_variants)].
Proof.
  intros (Hp & Ht & Hn) instruction.
  pose proof (num_variants_digit num_variants Hn) as Hd.
  split; [| split; [| split; [| split]]].
  - unfold build_prompt_template.
    cbn [format_messages template template_role
         SystemMessagePromptTemplate HumanMessagePromptTemplate].
    rewrite format_plain.
    + rewrite format_human_template. reflexivity.
    + apply system_message_brace_free;
        [now apply platform_brace_free | now apply tone_brace_free |].
      rewrite Hd. cbn [brace_free forallb].
      assert (E : num_variants = 3%Z \/ num_variants = 4%Z \/ num_variants = 5%Z
                  \/ num_variants = 6%Z \/ num_variants = 7%Z \/ num_variants = 8%Z)
        by lia.
      repeat (destruct E as [-> | E]; [vm_compute; reflexivity|]).
      subst num_variants. vm_compute. reflexivity.
  - unfold instruction, system_message. do 6 apply occurs_in_later.
    apply occurs_in_here.
  - unfold instruction, system_message. do 8 apply occurs_in_later.
    apply occurs_in_here.
  - unfold instruction, system_message. do 4 apply occurs_in_later.
    apply occurs_in_here.
  - exact Hd.
Qed.

Lemma build_prompt_template_contents_witness :
  well_formed (u "Instagram") (u "カジュアル") 5
  /\ occurs_in (u "Instagram")
       (system_message (u "Instagram") (u "カジュアル") 5)
  /\ str_of_int 5 = u "5".
Proof.
  assert (W : well_formed (u "Instagram") (u "カジュアル") 5).
  { unfold well_formed, platform_options, tone_options.
    cbn [In]. split; [| split]; [now left | now left | lia]. }
  split; [exact W|].
  destruct (build_prompt_template_contents
              (u "Instagram") (u "カジュアル") (u "Weekend at the beach")
              (u "日本語") 5 W) as (_ & Hp & _ & _ & Hd).
  split; [exact Hp | exact Hd].
Defined.

(** C6: the language chosen in the form has no influence on the caption
    prompt: the template built, the messages it formats to, and with them
    every run of the script, are the same for any two languages. The only
    language named in an instruction is the one written into the summary
    prompt, which takes no parameter. *)
Theorem language_not_in_prompt
    (platform tone description : str) (num_variants : Z) (language language' : str) :
  build_prompt_template platform tone description num_variants language
  = build_prompt_template platform tone description num_variants language'
  /\ (forall kw,
        format_messages
          (build_prompt_template platform tone description num_variants language) kw
        = format_messages
            (build_prompt_template platform tone description num_variants language') kw)
  /\ (forall ChatOpenAI completion submitted log,
        on_submit ChatOpenAI completion description platform tone language
          num_variants submitted log
        = on_submit ChatOpenAI completion description platform tone language'
            num_variants submitted log)
  /\ nth_error summary_prompt 0 = Some (SystemMessagePromptTemplate summary_instruction)
  /\ occurs_in (u "日本語") summary_instruction.
Proof.
  split; [reflexivity | split; [reflexivity | split; [reflexivity|]]].
  split; [reflexivity|].
  exists (u "あなたは"), (u "の要約の専門家です。以下の内容説明を読み、読み手に伝わりやすい自然な日本語で、短く一文に要約してください。").
  vm_compute. reflexivity.
Qed.



(* ================================================================== *)
(** * The submission script: general facts *)
(* ================================================================== *)

Lemma requests_app (log more : list event) :
  requests (log ++ more) = requests log ++ requests more.
Proof. apply filter_app. Qed.

Section ScriptFacts.

Variable completion : nat -> list message -> result str.

(** Once the prompt is filled in, running the chain sends one request
    and comes back with the service's answer. *)
Lemma LLMChain_run_sent prompt kw messages log :
  format_messages prompt kw = Ok messages ->
  LLMChain_run completion prompt kw log
  = (log ++ [completion_request messages],
     match completion (List.length (requests log)) messages with
     | Ok text => inl text
     | Raise e => inr (Exception e)
     end).
Proof.
  intros H. unfold LLMChain_run, sbind, lift, emit. rewrite H.
  now destruct (completion (List.length (requests log)) messages).
Qed.

(** The summary block, whatever the service answers. *)
Lemma summary_runs description log :
  summary completion description log
  = (log ++ [ st_subheader (u "説明の要約（任意）");
              completion_request [ (system, summary_instruction); (human, description) ];
              st_info
                match completion (List.length (requests log))
                        [ (system, summary_instruction); (human, description) ] with
                | Ok text => u "要約: " ++ strip text
                | Raise _ => u "要約は生成できませんでした。"
                end ],
     inl tt).
Proof.
  unfold summary, try_except. unfold sbind at 1. unfold emit at 1.
  unfold sbind.
  rewrite (LLMChain_run_sent _ _ _ _ (format_summary_prompt description)).
  rewrite requests_app. cbn [requests filter is_request]. rewrite app_nil_r.
  destruct (completion _ _); unfold emit; rewrite <- !app_assoc; reflexivity.
Qed.

End ScriptFacts.

(* ================================================================== *)
(** * Properties of the submission script *)
(* ================================================================== *)

(** C4: when the client is built, the prompt is filled in and the service
    answers the caption request with a text, the [try] block ends
    normally, having sent that one request, with a caption list that is
    never empty: the parsed captions when there are some, and otherwise
    the single-element list of the trimmed answer. *)
Theorem generation_never_empty
    (ChatOpenAI : result unit) (completion : nat -> list message -> result str)
    (description platform tone language : str) (num_variants : Z)
    (log : list event) (messages : list message) (raw_output : str) :
  ChatOpenAI = Ok tt ->
  format_messages
    (build_prompt_template platform tone description num_variants language)
    (inputs description) = Ok messages ->
  completion (List.length (requests log)) messages = Ok raw_output ->
  exists captions,
    generation ChatOpenAI completion description platform tone language
      num_variants log
    = (log ++ [ st_spinner (u "キャプションを生成中..."); completion_request messages ],
       inl captions)
    /\ captions <> []
    /\ (parse_captions raw_output = Ok [] -> captions = [ strip raw_output ])
    /\ (forall parsed,
          parse_captions raw_output = Ok parsed -> parsed <> [] ->
          captions = parsed).
Proof.
  intros Hllm Hfmt Hans.
  assert (Hrun :
    generation ChatOpenAI completion description platform tone language
      num_variants log
    = (log ++ [ st_spinner (u "キャプションを生成中..."); completion_request messages ],
       inl (if negb (truthy (map marker_stripped (lines raw_output)))
            then [ strip raw_output ]
            else map marker_stripped (lines raw_output)))).
  { unfold generation. unfold sbind at 1. unfold emit at 1.
    unfold try_except, sbind. rewrite Hllm. cbn [lift].
    rewrite (LLMChain_run_sent _ _ _ _ _ Hfmt).
    rewrite requests_app. cbn [requests filter is_request]. rewrite app_nil_r.
    fold (requests log). rewrite Hans, parse_captions_ok.
    rewrite <- app_assoc.
    now destruct (map marker_stripped (lines raw_output)). }
  eexists. split; [exact Hrun|].
  rewrite parse_captions_ok.
  destruct (map marker_stripped (lines raw_output)) as [|caption more];
    cbn [truthy negb].
  - split; [discriminate|]. split; [reflexivity|].
    intros parsed E Hne. injection E as <-. now destruct Hne.
  - split; [discriminate|]. split; [discriminate|].
    intros parsed E _. now injection E.
Qed.

Lemma generation_never_empty_witness :
  let messages :=
    [ (system, system_message (u "Instagram") (u "カジュアル") 5);
      (human, nl ++ u "Content description:" ++ nl ++ u "Weekend at the beach" ++ nl) ] in
  format_messages
    (build_prompt_template (u "Instagram") (u "カジュアル")
       (u "Weekend at the beach") 5 (u "日本語"))
    (inputs (u "Weekend at the beach")) = Ok messages
  /\ blank_completion (List.length (requests [])) messages = Ok (u "  " ++ nl ++ u " ")
  /\ exists captions,
       generation (Ok tt) blank_completion (u "Weekend at the beach")
         (u "Instagram") (u "カジュアル") (u "日本語") 5 []
       = ([ st_spinner (u "キャプションを生成中..."); completion_request messages ],
          inl captions)
       /\ captions <> [].
Proof.
  cbv zeta.
  assert (Hfmt :
    format_messages
      (build_prompt_template (u "Instagram") (u "カジュアル")
         (u "Weekend at the beach") 5 (u "日本語"))
      (inputs (u "Weekend at the beach"))
    = Ok [ (system, system_message (u "Instagram") (u "カジュアル") 5);
           (human, nl ++ u "Content description:" ++ nl
                   ++ u "Weekend at the beach" ++ nl) ])
    by (vm_compute; reflexivity).
  split; [exact Hfmt|]. split; [reflexivity|].
  destruct (generation_never_empty (Ok tt) blank_completion
              (u "Weekend at the beach") (u "Instagram") (u "カジュアル")
              (u "日本語") 5 [] _ (u "  " ++ nl ++ u " ")
              eq_refl Hfmt eq_refl) as (captions & Hrun & Hne & _).
  exists captions. split; [exact Hrun | exact Hne].
Defined.

(** C8: a submission whose description is empty or made of whitespace
    only renders the error message and stops there, whatever the
    collaborators would do: nothing else is rendered and no request is
    sent to the completion service. *)
Theorem blank_description_stops
    (ChatOpenAI : result unit) (completion : nat -> list message -> result str)
    (description platform tone language : str) (num_variants : Z)
    (log : list event) :
  forallb isspace description = true ->
  on_submit ChatOpenAI completion description platform tone language
    num_variants true log
  = (log ++ [ st_error (u "説明を入力してください。") ], inr StopException)
  /\ requests
       (fst (on_submit ChatOpenAI completion description platform tone language
               num_variants true log))
     = requests log.
Proof.
  intros Hblank.
  assert (Hrun :
    on_submit ChatOpenAI completion description platform tone language
      num_variants true log
    = (log ++ [ st_error (u "説明を入力してください。") ], inr StopException)).
  { unfold on_submit, captions_part, validation.
    rewrite (strip_blank description Hblank). reflexivity. }
  split; [exact Hrun|].
  rewrite Hrun. cbn [fst]. rewrite requests_app.
  cbn [requests filter is_request]. apply app_nil_r.
Qed.

Lemma blank_description_stops_witness :
  forallb isspace (u "   ") = true
  /\ on_submit (Ok tt) blank_completion (u "   ") (u "Instagram") (u "カジュアル")
       (u "日本語") 5 true []
     = ([ st_error (u "説明を入力してください。") ], inr StopException).
Proof.
  split; [vm_compute; reflexivity|].
  apply (blank_description_stops (Ok tt) blank_completion (u "   ")
           (u "Instagram") (u "カジュアル") (u "日本語") 5 []).
  vm_compute. reflexivity.
Defined.

(** C9: the summary block never lets an exception out. Whatever the
    service does with the summary request, the block ends normally, having
    added its heading, the request and one notice to what was rendered
    before; when the request fails the notice is the one saying that no
    summary could be made. A run that got as far as rendering its captions
    therefore ends normally with those captions still rendered, unchanged,
    before the summary's elements. *)
Theorem summary_failure_contained
    (ChatOpenAI : result unit) (completion : nat -> list message -> result str)
    (description platform tone language : str) (num_variants : Z)
    (log : list event) :
  let request := [ (system, summary_instruction); (human, description) ] in
  let heading := st_subheader (u "説明の要約（任意）") in
  (exists notice,
     summary completion description log
     = (log ++ [ heading; completion_request request; st_info notice ], inl tt))
  /\ (forall e,
        completion (List.length (requests log)) request = Raise e ->
        summary completion description log
        = (log ++ [ heading; completion_request request;
                    st_info (u "要約は生成できませんでした。") ], inl tt))
  /\ (forall rendered,
        captions_part ChatOpenAI completion description platform tone language
          num_variants log = (rendered, inl tt) ->
        exists notice,
          on_submit ChatOpenAI completion description platform tone language
            num_variants true log
          = (rendered
               ++ [ heading; completion_request request; st_info notice ],
             inl tt)).
Proof.
  intros request heading.
  split; [| split].
  - eexists. apply summary_runs.
  - intros e He. rewrite summary_runs. fold request. now rewrite He.
  - intros rendered Hpart. eexists.
    unfold on_submit, sbind. rewrite Hpart. apply summary_runs.
Qed.

Lemma summary_failure_contained_witness :
  let request := [ (system, summary_instruction); (human, u "beach") ] in
  failing_summary (List.length (requests [ completion_request [] ])) request
  = Raise (ClientError (u "rate limit"))
  /\ summary failing_summary (u "beach") [ completion_request [] ]
     = ([ completion_request [];
          st_subheader (u "説明の要約（任意）");
          completion_request request;
          st_info (u "要約は生成できませんでした。") ], inl tt).
Proof.
  cbv zeta. split; [reflexivity|].
  apply (proj1 (proj2 (summary_failure_contained (Ok tt) failing_summary
                         (u "beach") (u "X") (u "シンプル") (u "English") 3
                         [ completion_request [] ]))
           (ClientError (u "rate limit"))).
  reflexivity.
Defined.

(* ================================================================== *)
(** * Further facts on trimming and splitting *)
(* ================================================================== *)

Section MoreStripFacts.

Lemma lstrip_suffix (s : str) :
  exists ws, s = ws ++ lstrip s /\ blank ws = true.
Proof.
  induction s as [|c s (ws & E & B)]; [now exists []|].
  cbn [lstrip]. destruct (isspace c) eqn:Hc.
  - exists (c :: ws). cbn. rewrite Hc. fold (blank ws). rewrite B.
    split; [now rewrite <- E | reflexivity].
  - now exists [].
Qed.

Lemma blank_rev (s : str) : blank (rev s) = blank s.
Proof.
  unfold blank. induction s as [|c s IH]; [reflexivity|].
  cbn [rev forallb]. rewrite forallb_app, IH. cbn. rewrite andb_true_r.
  apply andb_comm.
Qed.

Lemma blank_app (a b : str) : blank (a ++ b) = blank a && blank b.
Proof. apply forallb_app. Qed.

Lemma rstrip_prefix (s : str) :
  exists ws, s = rstrip s ++ ws /\ blank ws = true.
Proof.
  destruct (lstrip_suffix (rev s)) as (ws & E & B).
  exists (rev ws). split; [| now rewrite blank_rev].
  unfold rstrip. rewrite <- rev_app_distr, <- E. now rewrite rev_involutive.
Qed.

(** A string is its trimmed part between two blank ones. *)
Lemma strip_decompose (s : str) :
  exists before after,
    s = before ++ strip s ++ after /\ blank before = true /\ blank after = true.
Proof.
  destruct (lstrip_suffix s) as (before & E1 & B1).
  destruct (rstrip_prefix (lstrip s)) as (after & E2 & B2).
  exists before, after. unfold strip. now rewrite <- E2, <- E1.
Qed.

Lemma lstrip_nil (s : str) : lstrip s = [] -> blank s = true.
Proof.
  intros H. destruct (lstrip_suffix s) as (ws & E & B).
  rewrite H, app_nil_r in E. now subst.
Qed.

Lemma strip_nil (s : str) : strip s = [] <-> blank s = true.
Proof.
  split; [| apply strip_blank].
  intros H. destruct (strip_decompose s) as (b & a & E & Bb & Ba).
  rewrite H in E. rewrite E, !blank_app, Bb, Ba. reflexivity.
Qed.

Lemma rstrip_app (a b : str) :
  rstrip (a ++ b) =
  match rstrip b with [] => rstrip a | _ :: _ => a ++ rstrip b end.
Proof.
  unfold rstrip. rewrite rev_app_distr, lstrip_app.
  destruct (lstrip (rev b)) as [|x y] eqn:E; [reflexivity|].
  rewrite rev_app_distr, rev_involutive.
  destruct (rev (x :: y)) eqn:E'; [| reflexivity].
  apply (f_equal (@rev char)) in E'. rewrite rev_involutive in E'. discriminate.
Qed.

Lemma rstrip_blank (s : str) : blank s = true -> rstrip s = [].
Proof.
  intros H. unfold rstrip. rewrite lstrip_blank; [reflexivity|].
  fold (blank (rev s)). now rewrite blank_rev.
Qed.

Lemma lstrip_pad (ws s : str) : blank ws = true -> lstrip (ws ++ s) = lstrip s.
Proof. intros H. now rewrite lstrip_app, (lstrip_blank ws H). Qed.

Lemma rstrip_pad (s ws : str) : blank ws = true -> rstrip (s ++ ws) = rstrip s.
Proof. intros H. now rewrite rstrip_app, (rstrip_blank ws H). Qed.

(** Trimming does not see blank text around. *)
Lemma strip_pad (before s after : str) :
  blank before = true -> blank after = true ->
  strip (before ++ s ++ after) = strip s.
Proof.
  intros Hb Ha. unfold strip. rewrite (lstrip_pad _ _ Hb), lstrip_app.
  destruct (lstrip s) as [|x y] eqn:E.
  - now rewrite (lstrip_blank after Ha).
  - now rewrite (rstrip_pad _ _ Ha).
Qed.

Lemma strip_pad_front (ws s : str) : blank ws = true -> strip (ws ++ s) = strip s.
Proof.
  intros H. rewrite <- (strip_pad ws s [] H eq_refl). now rewrite app_nil_r.
Qed.

Lemma strip_pad_back (s ws : str) : blank ws = true -> strip (s ++ ws) = strip s.
Proof. intros H. exact (strip_pad [] s ws eq_refl H). Qed.

Lemma strip_rstrip (s : str) : strip (rstrip s) = strip s.
Proof.
  destruct (rstrip_prefix s) as (ws & E & B).
  rewrite E at 2. now rewrite (strip_pad_back _ _ B).
Qed.

Lemma strip_keeps (P : char -> bool) (s : str) :
  forallb P s = true -> forallb P (strip s) = true.
Proof.
  destruct (strip_decompose s) as (b & a & E & _ & _).
  intros H. rewrite E, !forallb_app in H.
  apply andb_true_iff in H as [_ H]. now apply andb_true_iff in H as [H _].
Qed.

Lemma lstrip_fixed (c : char) (s : str) :
  isspace c = false -> lstrip (c :: s) = c :: s.
Proof. intros H. cbn. now rewrite H. Qed.

Lemma rstrip_last (s : str) (c : char) :
  isspace c = false -> rstrip (s ++ [c]) = s ++ [c].
Proof.
  intros H. unfold rstrip. rewrite rev_app_distr. cbn [rev app].
  rewrite (lstrip_fixed _ _ H). cbn [rev]. now rewrite rev_involutive.
Qed.

End MoreStripFacts.

Section SplitlinesFacts.

Lemma splitlines_break (c : char) (rest : str) :
  islinebreak c = true ->
  splitlines (c :: rest) = [] :: splitlines (after_break c rest).
Proof.
  intros H. cbn [splitlines]. rewrite H. unfold after_break.
  destruct rest as [|c' rest']; [reflexivity|].
  now destruct ((c =? CR) && (c' =? LF))%N.
Qed.

Lemma splitlines_char (c : char) (rest : str) :
  islinebreak c = false ->
  splitlines (c :: rest) =
  match splitlines rest with
  | [] => [[c]]
  | line :: more => (c :: line) :: more
  end.
Proof. intros H. cbn [splitlines]. now rewrite H. Qed.

Lemma after_break_suffix (c : char) (rest : str) :
  exists skipped, rest = skipped ++ after_break c rest
                  /\ (skipped = [] \/ (c = CR /\ skipped = [LF])).
Proof.
  destruct rest as [|c' rest']; [now exists []; split; [|left]|].
  unfold after_break.
  destruct ((c =? CR) && (c' =? LF))%N eqn:E.
  - apply andb_true_iff in E as [E1 E2].
    apply N.eqb_eq in E1, E2. subst. exists [LF]. split; [reflexivity | now right].
  - exists []. split; [reflexivity | now left].
Qed.

Lemma after_break_length (c : char) (rest : str) :
  List.length (after_break c rest) <= List.length rest.
Proof.
  destruct (after_break_suffix c rest) as (sk & E & _).
  rewrite E at 2. rewrite length_app. lia.
Qed.

(** Induction along the way [splitlines] reads its argument. *)
Lemma splitlines_ind (P : str -> Prop) :
  P [] ->
  (forall c rest, islinebreak c = true -> P (after_break c rest) -> P (c :: rest)) ->
  (forall c rest, islinebreak c = false -> P rest -> P (c :: rest)) ->
  forall s, P s.
Proof.
  intros Hnil Hbreak Hchar s.
  assert (H : forall n s, List.length s <= n -> P s).
  { clear s. induction n as [|n IH]; intros s Hlen.
    - destruct s; [exact Hnil | cbn in Hlen; lia].
    - destruct s as [|c rest]; [exact Hnil|]. cbn in Hlen.
      destruct (islinebreak c) eqn:E.
      + apply Hbreak; [exact E|]. apply IH.
        pose proof (after_break_length c rest). lia.
      + apply Hchar; [exact E|]. apply IH. lia. }
  apply (H (List.length s)). lia.
Qed.

Lemma splitlines_nil (s : str) : splitlines s = [] -> s = [].
Proof.
  destruct s as [|c rest]; [reflexivity|].
  destruct (islinebreak c) eqn:E.
  - now rewrite (splitlines_break c rest E).
  - rewrite (splitlines_char c rest E). now destruct (splitlines rest).
Qed.

(** No line holds a line boundary. *)
Lemma splitlines_one_line (s : str) :
  Forall (fun line => one_line line = true) (splitlines s).
Proof.
  induction s as [| c rest E IH | c rest E IH] using splitlines_ind.
  - constructor.
  - rewrite (splitlines_break c rest E). now constructor.
  - rewrite (splitlines_char c rest E).
    destruct (splitlines rest) as [|line more].
    + repeat constructor. cbn. now rewrite E.
    + inversion IH as [|? ? Hl Hm]. constructor; [| exact Hm].
      cbn. rewrite E. exact Hl.
Qed.

Lemma occurs_in_refl (s : str) : occurs_in s s.
Proof. exists [], []. now rewrite app_nil_r. Qed.

Lemma occurs_in_nil (s : str) : occurs_in [] s.
Proof. now exists [], s. Qed.

Lemma occurs_in_trans (a b c : str) :
  occurs_in a b -> occurs_in b c -> occurs_in a c.
Proof.
  intros (p & q & ->) (p' & q' & ->).
  exists (p' ++ p), (q ++ q'). now rewrite <- !app_assoc.
Qed.

Lemma occurs_in_cons (x : str) (c : char) (s : str) :
  occurs_in x s -> occurs_in x (c :: s).
Proof. apply (occurs_in_later x [c] s). Qed.

(** The first line starts the text. *)
Lemma splitlines_first (s line : str) (more : list str) :
  splitlines s = line :: more -> exists rest, s = line ++ rest.
Proof.
  revert line more. induction s as [|c rest IH]; intros line more; [discriminate|].
  destruct (islinebreak c) eqn:E.
  - rewrite (splitlines_break c rest E). intros H. injection H as <- _.
    now exists (c :: rest).
  - rewrite (splitlines_char c rest E).
    destruct (splitlines rest) as [|l m] eqn:Es; intros H; injection H as <- _.
    + apply splitlines_nil in Es. subst. now exists [].
    + destruct (IH l m eq_refl) as (r & ->). now exists r.
Qed.

(** Every line is a piece of the text. *)
Lemma splitlines_occurs (s line : str) :
  In line (splitlines s) -> occurs_in line s.
Proof.
  revert line.
  induction s as [| c rest E IH | c rest E IH] using splitlines_ind;
    intros line Hin.
  - destruct Hin.
  - rewrite (splitlines_break c rest E) in Hin. destruct Hin as [<- | Hin].
    + apply occurs_in_nil.
    + apply occurs_in_cons.
      destruct (after_break_suffix c rest) as (sk & Er & _).
      rewrite Er. apply occurs_in_later. now apply IH.
  - pose proof (splitlines_char c rest E) as Hs.
    destruct (splitlines (c :: rest)) as [|first others] eqn:Ec; [destruct Hin|].
    destruct Hin as [<- | Hin].
    + destruct (splitlines_first _ _ _ Ec) as (r & ->).
      exists [], r. reflexivity.
    + apply occurs_in_cons. apply IH.
      destruct (splitlines rest) as [|l m]; injection Hs as _ ->;
        [destruct Hin | now right].
Qed.

(** A non-empty text without line boundary is its only line. *)
Lemma splitlines_single (s : str) :
  one_line s = true -> s <> [] -> splitlines s = [s].
Proof.
  induction s as [|c rest IH]; [easy|]. intros H _.
  cbn in H. apply andb_true_iff in H as [Hc Hr].
  apply negb_true_iff in Hc. rewrite (splitlines_char c rest Hc).
  destruct rest as [|c' rest']; [reflexivity|].
  now rewrite (IH Hr).
Qed.

(** A line ended by LF, then more text. *)
Lemma splitlines_line (line rest : str) :
  one_line line = true ->
  splitlines (line ++ LF :: rest) = line :: splitlines rest.
Proof.
  induction line as [|c line IH]; intros H.
  - cbn [app]. rewrite (splitlines_break LF rest eq_refl).
    unfold after_break. destruct rest; reflexivity.
  - cbn in H. apply andb_true_iff in H as [Hc Hr].
    apply negb_true_iff in Hc. cbn [app].
    rewrite (splitlines_char c _ Hc), (IH Hr). reflexivity.
Qed.

(** Lines joined by LF split back into themselves. *)
Lemma splitlines_join (ls : list str) :
  Forall (fun line => one_line line = true /\ line <> []) ls ->
  splitlines (join nl ls) = ls.
Proof.
  induction 1 as [|line more [Ho Hne] Hmore IH]; [reflexivity|].
  destruct more as [|next more'].
  - cbn [join]. now apply splitlines_single.
  - change (join nl (line :: next :: more'))
      with (line ++ LF :: join nl (next :: more')).
    now rewrite (splitlines_line _ _ Ho), IH.
Qed.

End SplitlinesFacts.

(* ================================================================== *)
(** * Further facts on the lines of a text *)
(* ================================================================== *)

Section LinesFacts.

Lemma lines_keep (raw : str) : lines raw = keep_lines (splitlines (strip raw)).
Proof. reflexivity. Qed.

Lemma keep_lines_app (x y : list str) :
  keep_lines (x ++ y) = keep_lines x ++ keep_lines y.
Proof. unfold keep_lines. now rewrite filter_app, map_app. Qed.

Lemma keep_lines_cons (l l' : str) (m m' : list str) :
  strip l = strip l' -> keep_lines m = keep_lines m' ->
  keep_lines (l :: m) = keep_lines (l' :: m').
Proof.
  intros El Em. unfold keep_lines in *. cbn [filter]. rewrite El.
  destruct (truthy (strip l')); cbn [map]; now rewrite ?El, Em.
Qed.

Lemma keep_lines_blank (ls : list str) :
  Forall (fun line => blank line = true) ls -> keep_lines ls = [].
Proof.
  induction 1 as [|l m Hl _ IH]; [reflexivity|].
  unfold keep_lines in *. cbn [filter]. now rewrite (strip_blank l Hl).
Qed.

Lemma blank_piece (x s : str) : occurs_in x s -> blank s = true -> blank x = true.
Proof.
  intros (p & q & ->). rewrite !blank_app.
  intros H. apply andb_true_iff in H as [_ H]. now apply andb_true_iff in H as [H _].
Qed.

Lemma splitlines_blank (ws : str) :
  blank ws = true -> Forall (fun line => blank line = true) (splitlines ws).
Proof.
  intros H. apply Forall_forall. intros l Hl.
  apply (blank_piece l ws); [now apply splitlines_occurs | exact H].
Qed.

Lemma after_break_blank (c : char) (ws : str) :
  blank ws = true -> blank (after_break c ws) = true.
Proof.
  intros H. destruct (after_break_suffix c ws) as (sk & E & _).
  rewrite E, blank_app in H. now apply andb_true_iff in H as [_ H].
Qed.

Lemma after_break_app (c c' : char) (rest more : str) :
  after_break c ((c' :: rest) ++ more) = after_break c (c' :: rest) ++ more.
Proof. unfold after_break. cbn [app]. now destruct ((c =? CR) && (c' =? LF))%N. Qed.

(** Whitespace in front of a text changes none of the lines kept. *)
Lemma keep_splitlines_space (w : char) (s : str) :
  isspace w = true ->
  keep_lines (splitlines (w :: s)) = keep_lines (splitlines s).
Proof.
  intros Hw. destruct (islinebreak w) eqn:E.
  - rewrite (splitlines_break w s E).
    change ([] :: splitlines (after_break w s))
      with ([[]] ++ splitlines (after_break w s)).
    rewrite keep_lines_app. cbn [app keep_lines filter map].
    destruct (after_break_suffix w s) as (sk & Es & [-> | [-> ->]]).
    + cbn in Es. now rewrite <- Es.
    + rewrite Es at 2. cbn [app].
      rewrite (splitlines_break LF _ eq_refl).
      change ([] :: splitlines (after_break LF (after_break CR s)))
        with ([[]] ++ splitlines (after_break LF (after_break CR s))).
      rewrite keep_lines_app.
      assert (Ea : forall t, after_break LF t = t) by (now destruct t).
      now rewrite Ea.
  - rewrite (splitlines_char w s E).
    destruct (splitlines s) as [|l m].
    + unfold keep_lines. cbn [filter].
      now rewrite (strip_blank [w]) by (cbn; now rewrite Hw).
    + apply keep_lines_cons; [| reflexivity].
      apply (strip_pad_front [w] l). cbn. now rewrite Hw.
Qed.

Lemma keep_splitlines_front (ws s : str) :
  blank ws = true ->
  keep_lines (splitlines (ws ++ s)) = keep_lines (splitlines s).
Proof.
  induction ws as [|w ws IH]; [reflexivity|]. intros H.
  unfold blank in H. cbn [forallb] in H.
  apply andb_true_iff in H as [Hw H].
  cbn [app]. rewrite (keep_splitlines_space w _ Hw). now apply IH.
Qed.

Lemma keep_splitlines_blank (ws : str) :
  blank ws = true -> keep_lines (splitlines ws) = [].
Proof. intros H. now apply keep_lines_blank, splitlines_blank. Qed.

(** Whitespace behind a text only pads its last line and adds blank lines. *)
Lemma splitlines_pad (s ws : str) :
  blank ws = true -> s <> [] ->
  exists l m pad m',
    splitlines s = l :: m
    /\ splitlines (s ++ ws) = (l ++ pad) :: m'
    /\ blank pad = true
    /\ keep_lines m' = keep_lines m.
Proof.
  intros Hws.
  induction s as [| c rest E IH | c rest E IH] using splitlines_ind;
    intros Hne; [easy | |].
  - cbn [app]. rewrite !(splitlines_break c _ E).
    exists [], (splitlines (after_break c rest)), [],
           (splitlines (after_break c (rest ++ ws))).
    split; [reflexivity|]. split; [reflexivity|]. split; [reflexivity|].
    destruct rest as [|c' rest'].
    + cbn [app after_break splitlines keep_lines filter map].
      fold (after_break c ws).
      apply keep_splitlines_blank, after_break_blank, Hws.
    + rewrite after_break_app.
      destruct (after_break c (c' :: rest')) as [|x r] eqn:Er.
      * cbn [app]. now rewrite (keep_splitlines_blank ws Hws).
      * destruct IH as (l & m & pad & m' & E1 & E2 & Hp & Hm); [discriminate|].
        rewrite E1, E2. apply keep_lines_cons; [| exact Hm].
        now apply strip_pad_back.
  - cbn [app]. rewrite !(splitlines_char c _ E).
    destruct rest as [|c' rest'].
    + cbn [app splitlines].
      pose proof (splitlines_blank ws Hws) as Hb.
      destruct (splitlines ws) as [|l0 m0].
      * exists [c], [], [], []. now rewrite app_nil_r.
      * inversion Hb as [|? ? Hl Hm]. subst.
        exists [c], [], l0, m0. repeat (split; [reflexivity || assumption|]).
        now apply keep_lines_blank.
    + destruct IH as (l & m & pad & m' & E1 & E2 & Hp & Hm); [discriminate|].
      rewrite E1, E2. exists (c :: l), m, pad, m'. now repeat split.
Qed.

Lemma keep_splitlines_back (s ws : str) :
  blank ws = true ->
  keep_lines (splitlines (s ++ ws)) = keep_lines (splitlines s).
Proof.
  intros H. destruct s as [|c s]; [now apply keep_splitlines_blank|].
  destruct (splitlines_pad (c :: s) ws H) as (l & m & pad & m' & E1 & E2 & Hp & Hm);
    [discriminate|].
  rewrite E1, E2. apply keep_lines_cons; [| exact Hm].
  now apply strip_pad_back.
Qed.

(** The first [strip] of [parse_captions] changes nothing: the lines kept
    are those of the text as it is. *)
Lemma lines_unstripped (raw : str) : lines raw = keep_lines (splitlines raw).
Proof.
  rewrite lines_keep.
  destruct (strip_decompose raw) as (b & a & E & Hb & Ha).
  rewrite E at 2.
  now rewrite (keep_splitlines_front b _ Hb), (keep_splitlines_back _ a Ha).
Qed.

(** Two texts joined by LF: the lines of the first, at most one empty
    line, the lines of the second. *)
Lemma splitlines_app (a b : str) :
  exists extra,
    (extra = [] \/ extra = [[]])
    /\ splitlines (a ++ LF :: b) = splitlines a ++ extra ++ splitlines b.
Proof.
  assert (Ea : forall t, after_break LF t = t) by (now destruct t).
  induction a as [| c rest E IH | c rest E IH] using splitlines_ind.
  - exists [[]]. split; [now right|]. cbn [app].
    now rewrite (splitlines_break LF b eq_refl), Ea.
  - cbn [app]. rewrite !(splitlines_break c _ E).
    destruct rest as [|c' rest'].
    + cbn [app]. unfold after_break at 1.
      destruct (c =? CR)%N eqn:Ec; cbn [andb].
      * exists []. split; [now left|]. reflexivity.
      * exists [[]]. split; [now right|].
        rewrite (splitlines_break LF b eq_refl), Ea. reflexivity.
    + rewrite after_break_app.
      destruct IH as (extra & Hx & ->). exists extra. split; [exact Hx|].
      reflexivity.
  - cbn [app]. rewrite !(splitlines_char c _ E).
    destruct rest as [|c' rest'].
    + exists []. split; [now left|]. cbn [app].
      now rewrite (splitlines_break LF b eq_refl), Ea.
    + destruct IH as (extra & Hx & ->). exists extra. split; [exact Hx|].
      pose proof (splitlines_nil (c' :: rest')) as Hn.
      destruct (splitlines (c' :: rest')); [now specialize (Hn eq_refl)|].
      reflexivity.
Qed.

End LinesFacts.

(* ================================================================== *)
(** * Further facts on the parser *)
(* ================================================================== *)

Section CaptionFacts.

Lemma after_first_suffix (sep : char) (s : str) :
  exists before, s = before ++ after_first sep s.
Proof.
  induction s as [|c s (b & E)]; [now exists []|].
  cbn [after_first]. destruct (c =? sep)%N.
  - now exists [c].
  - exists (c :: b). cbn. now rewrite <- E.
Qed.

Lemma after_first_keeps (P : char -> bool) (sep : char) (s : str) :
  forallb P s = true -> forallb P (after_first sep s) = true.
Proof.
  destruct (after_first_suffix sep s) as (b & E). intros H.
  rewrite E, forallb_app in H. now apply andb_true_iff in H as [_ H].
Qed.

Lemma after_first_app (sep : char) (a t : str) :
  contains sep a = false -> after_first sep (a ++ sep :: t) = t.
Proof.
  induction a as [|c a IH]; cbn.
  - now rewrite N.eqb_refl.
  - rewrite (N.eqb_sym sep c). destruct (c =? sep)%N; [discriminate | exact IH].
Qed.

Lemma occurs_in_strip (s : str) : occurs_in (strip s) s.
Proof. destruct (strip_decompose s) as (b & a & E & _). now exists b, a. Qed.

Lemma occurs_in_after_first (sep : char) (s : str) :
  occurs_in (after_first sep s) s.
Proof.
  destruct (after_first_suffix sep s) as (b & E).
  exists b, []. now rewrite app_nil_r.
Qed.

(** What [marker_stripped] gives is trimmed, on one line and a piece of
    the line, when the line is. *)
Lemma marker_stripped_trimmed (line : str) :
  strip line = line -> strip (marker_stripped line) = marker_stripped line.
Proof.
  intros H. unfold marker_stripped.
  destruct (starts_with_digit line); [| exact H].
  destruct (contains dot line); [apply strip_idem|].
  destruct (contains rparen line); [apply strip_idem | exact H].
Qed.

Lemma marker_stripped_one_line (line : str) :
  one_line line = true -> one_line (marker_stripped line) = true.
Proof.
  intros H. unfold marker_stripped.
  destruct (starts_with_digit line); [| exact H].
  destruct (contains dot line); [now apply strip_keeps, after_first_keeps|].
  destruct (contains rparen line); [now apply strip_keeps, after_first_keeps | exact H].
Qed.

Lemma marker_stripped_occurs (line : str) : occurs_in (marker_stripped line) line.
Proof.
  unfold marker_stripped.
  destruct (starts_with_digit line); [| apply occurs_in_refl].
  destruct (contains dot line);
    [eapply occurs_in_trans; [apply occurs_in_strip | apply occurs_in_after_first]|].
  destruct (contains rparen line);
    [eapply occurs_in_trans; [apply occurs_in_strip | apply occurs_in_after_first]|].
  apply occurs_in_refl.
Qed.

Lemma lines_one_line (raw : str) :
  Forall (fun line => one_line line = true) (lines raw).
Proof.
  apply Forall_forall. intros line Hin. unfold lines in Hin.
  apply in_map_iff in Hin as (l & <- & Hl). apply filter_In in Hl as [Hl _].
  apply strip_keeps.
  pose proof (splitlines_one_line (strip raw)) as F.
  rewrite Forall_forall in F. now apply F.
Qed.

Lemma lines_occur (raw : str) :
  Forall (fun line => occurs_in line raw) (lines raw).
Proof.
  apply Forall_forall. intros line Hin. unfold lines in Hin.
  apply in_map_iff in Hin as (l & <- & Hl). apply filter_In in Hl as [Hl _].
  eapply occurs_in_trans; [apply occurs_in_strip|].
  eapply occurs_in_trans; [apply splitlines_occurs, Hl | apply occurs_in_strip].
Qed.

Lemma cleaned_lines_trimmed (raw : str) :
  Forall (fun caption => strip caption = caption /\ one_line caption = true)
    (map marker_stripped (lines raw)).
Proof.
  apply Forall_forall. intros caption Hin.
  apply in_map_iff in Hin as (line & <- & Hin).
  pose proof (lines_trimmed raw) as Ft. pose proof (lines_one_line raw) as Fo.
  rewrite Forall_forall in Ft, Fo.
  split; [apply marker_stripped_trimmed, Ft, Hin
         | apply marker_stripped_one_line, Fo, Hin].
Qed.

Lemma lines_concat (a b : str) : lines (a ++ LF :: b) = lines a ++ lines b.
Proof.
  rewrite !lines_unstripped.
  destruct (splitlines_app a b) as (extra & Hx & ->).
  rewrite !keep_lines_app. now destruct Hx as [-> | ->].
Qed.

Lemma lines_padded (before raw after : str) :
  blank before = true -> blank after = true ->
  lines (before ++ raw ++ after) = lines raw.
Proof. intros Hb Ha. unfold lines. now rewrite (strip_pad _ _ _ Hb Ha). Qed.

End CaptionFacts.

Section DecimalFacts.

Lemma ascii_digit_cases (c : char) :
  ascii_digit c = true ->
  isspace c = false /\ islinebreak c = false /\ isdigit_char c = true
  /\ (dot =? c)%N = false.
Proof.
  unfold ascii_digit, between. rewrite andb_true_iff, !N.leb_le. intros [H1 H2].
  assert (E : (c = 48 \/ c = 49 \/ c = 50 \/ c = 51 \/ c = 52 \/ c = 53
               \/ c = 54 \/ c = 55 \/ c = 56 \/ c = 57)%N) by lia.
  repeat (destruct E as [-> | E]; [vm_compute; auto|]).
  subst c. vm_compute. auto.
Qed.

Lemma digits_of_uint (d : Decimal.uint) :
  forallb ascii_digit (u (NilEmpty.string_of_uint d)) = true.
Proof. induction d as [|d IH|d IH|d IH|d IH|d IH|d IH|d IH|d IH|d IH|d IH]; [reflexivity | ..]; exact IH. Qed.

(** The decimal form of a natural number: digits, at least one. *)
Lemma str_of_int_digits (n : Z) :
  (0 <= n)%Z ->
  str_of_int n <> [] /\ forallb ascii_digit (str_of_int n) = true.
Proof.
  intros Hn. unfold str_of_int.
  destruct n as [|p|p]; [split; [discriminate | reflexivity] | | lia].
  unfold Z.to_int, NilZero.string_of_int, NilZero.string_of_uint.
  destruct (Pos.to_uint p) eqn:E;
    [split; [discriminate | reflexivity] | ..];
    (split; [discriminate | apply (digits_of_uint)]).
Qed.

End DecimalFacts.

Section CopyBlockFacts.

Lemma digits_no_dot (s : str) :
  forallb ascii_digit s = true -> contains dot s = false.
Proof.
  induction s as [|c s IH]; [reflexivity|]. cbn [forallb contains existsb].
  intros H. apply andb_true_iff in H as [Hc Hs].
  destruct (ascii_digit_cases c Hc) as (_ & _ & _ & ->). now apply IH.
Qed.

Lemma digits_one_line (s : str) :
  forallb ascii_digit s = true -> one_line s = true.
Proof.
  induction s as [|c s IH]; [reflexivity|]. cbn [forallb one_line].
  intros H. apply andb_true_iff in H as [Hc Hs].
  destruct (ascii_digit_cases c Hc) as (_ & -> & _). now apply IH.
Qed.

(** A numbered line of the copy block, trimmed. *)
Lemma numbered_line_strip (idx cap : str) :
  idx <> [] -> forallb ascii_digit idx = true ->
  strip (idx ++ u ". " ++ cap) = idx ++ dot :: rstrip (0x20%N :: cap).
Proof.
  intros Hne Hd. destruct idx as [|d ds]; [easy|].
  cbn [forallb] in Hd. apply andb_true_iff in Hd as [Hd _].
  destruct (ascii_digit_cases d Hd) as (Hsp & _).
  unfold strip. cbn [app]. rewrite (lstrip_fixed _ _ Hsp).
  change (d :: ds ++ u ". " ++ cap)
    with ((d :: ds) ++ [dot] ++ (0x20%N :: cap)).
  rewrite app_assoc, rstrip_app.
  destruct (rstrip (0x20%N :: cap)) as [|x y].
  - now rewrite rstrip_last by reflexivity.
  - now rewrite <- app_assoc.
Qed.

(** The parser's cleaning gives the caption of a numbered line back. *)
Lemma numbered_line_caption (idx cap : str) :
  idx <> [] -> forallb ascii_digit idx = true -> strip cap = cap ->
  strip (idx ++ u ". " ++ cap) <> []
  /\ marker_stripped (strip (idx ++ u ". " ++ cap)) = cap.
Proof.
  intros Hne Hd Hcap. rewrite (numbered_line_strip idx cap Hne Hd).
  split; [now destruct idx|].
  unfold marker_stripped.
  assert (Hs : starts_with_digit (idx ++ dot :: rstrip (0x20%N :: cap)) = true).
  { destruct idx as [|d ds]; [easy|]. cbn [forallb] in Hd.
    apply andb_true_iff in Hd as [Hd _].
    now destruct (ascii_digit_cases d Hd) as (_ & _ & H & _). }
  rewrite Hs, contains_app.
  assert (Hc : contains dot (dot :: rstrip (0x20%N :: cap)) = true) by reflexivity.
  rewrite Hc, orb_true_r, (after_first_app dot idx _ (digits_no_dot idx Hd)).
  rewrite strip_rstrip.
  exact (eq_trans (strip_pad_front [0x20%N] cap eq_refl) Hcap).
Qed.

Lemma numbered_line_one_line (idx cap : str) :
  forallb ascii_digit idx = true -> one_line cap = true ->
  one_line (idx ++ u ". " ++ cap) = true.
Proof.
  intros Hd Hc. unfold one_line. rewrite !forallb_app.
  fold (one_line idx). fold (one_line cap).
  now rewrite (digits_one_line idx Hd), Hc.
Qed.

Lemma enumerate1_index {A : Type} (l : list A) (ic : Z * A) :
  In ic (enumerate1 l) -> (0 <= fst ic)%Z.
Proof.
  destruct ic as [i c]. unfold enumerate1. intros H.
  apply in_combine_l in H. apply in_map_iff in H as (k & <- & _). cbn. lia.
Qed.

Lemma map_snd_combine {A B : Type} (a : list A) (b : list B) :
  List.length a = List.length b -> map snd (combine a b) = b.
Proof.
  revert b. induction a as [|x a IH]; intros [|y b]; cbn; try easy.
  intros H. f_equal. apply IH. lia.
Qed.

Lemma enumerate1_snd {A : Type} (l : list A) : map snd (enumerate1 l) = l.
Proof.
  unfold enumerate1. apply map_snd_combine.
  now rewrite length_map, length_seq.
Qed.

Lemma slice_to_prefix {A : Type} (l : list A) (n : Z) :
  exists k, slice_to l n = firstn k l.
Proof. unfold slice_to. destruct (0 <=? n)%Z; eauto. Qed.

Lemma slice_to_keeps {A : Type} (P : A -> Prop) (l : list A) (n : Z) :
  Forall P l -> Forall P (slice_to l n).
Proof.
  destruct (slice_to_prefix l n) as (k & ->). intros H.
  rewrite <- (firstn_skipn k l) in H. now apply Forall_app in H as [H _].
Qed.

Lemma keep_lines_all (ls : list str) :
  Forall (fun line => strip line <> []) ls -> keep_lines ls = map strip ls.
Proof.
  induction 1 as [|l m Hl _ IH]; [reflexivity|].
  unfold keep_lines in *. cbn [filter map].
  destruct (strip l) as [|x y] eqn:E; [easy|].
  cbn [truthy map]. now rewrite E, IH.
Qed.

(** The copy block of trimmed one-line captions parses back to them. *)
Lemma joined_parses_back (num_variants : Z) (captions : list str) :
  Forall (fun c => strip c = c /\ one_line c = true) captions ->
  parse_captions (joined num_variants captions)
  = Ok (slice_to captions num_variants).
Proof.
  intros Hall. unfold joined.
  pose proof (slice_to_keeps _ captions num_variants Hall) as Hs.
  set (shown := slice_to captions num_variants) in *.
  set (numbered := fun ic : Z * str => str_of_int (fst ic) ++ u ". " ++ snd ic).
  assert (Hrows : forall ic, In ic (enumerate1 shown) ->
            strip (numbered ic) <> []
            /\ marker_stripped (strip (numbered ic)) = snd ic
            /\ one_line (numbered ic) = true /\ numbered ic <> []).
  { intros ic Hin.
    destruct (str_of_int_digits (fst ic) (enumerate1_index shown ic Hin))
      as (Hne & Hd).
    assert (Hc : strip (snd ic) = snd ic /\ one_line (snd ic) = true).
    { rewrite Forall_forall in Hs. apply Hs.
      rewrite <- (enumerate1_snd shown). now apply in_map. }
    destruct Hc as (Ht & Ho).
    destruct (numbered_line_caption _ _ Hne Hd Ht) as (H1 & H2).
    repeat split; [exact H1 | exact H2 | now apply numbered_line_one_line |].
    unfold numbered. now destruct (str_of_int (fst ic)). }
  rewrite parse_captions_ok, lines_unstripped, splitlines_join.
  - rewrite keep_lines_all.
    + rewrite !map_map. rewrite <- (enumerate1_snd shown) at 2.
      f_equal. apply map_ext_in. intros ic Hin. now apply Hrows.
    + apply Forall_forall. intros l Hl.
      apply in_map_iff in Hl as (ic & <- & Hin). now apply Hrows.
  - apply Forall_forall. intros l Hl.
    apply in_map_iff in Hl as (ic & <- & Hin).
    destruct (Hrows ic Hin) as (_ & _ & Ho & Hn). now split.
Qed.

End CopyBlockFacts.

(* ================================================================== *)
(** * Further facts on the submission script *)
(* ================================================================== *)

Section RunFacts.

Variable ChatOpenAI : result unit.
Variable completion : nat -> list message -> result str.
Variables description platform tone language : str.
Variable num_variants : Z.

Lemma for_each_emits {A : Type} (xs : list A) (body : A -> script unit)
    (f : A -> list event) :
  (forall x log, body x log = (log ++ f x, inl tt)) ->
  forall log, for_each xs body log = (log ++ flat_map f xs, inl tt).
Proof.
  intros Hbody. induction xs as [|x xs IH]; intros log.
  - cbn. now rewrite app_nil_r.
  - cbn [for_each flat_map]. unfold sbind. rewrite Hbody, IH.
    now rewrite <- app_assoc.
Qed.

Lemma code_blocks_app (a b : list event) :
  code_blocks (a ++ b) = code_blocks a ++ code_blocks b.
Proof. apply flat_map_app. Qed.

(** What the display renders. *)
Lemma display_runs (captions : list str) (log : list event) :
  display num_variants captions log
  = (log
       ++ st_subheader (u "キャプション案")
       :: flat_map
            (fun ic =>
               [ st_markdown (u "**" ++ str_of_int (fst ic) ++ u ".** " ++ snd ic);
                 st_code (snd ic);
                 st_markdown (u "---") ])
            (enumerate1 (slice_to captions num_variants))
       ++ [ st_subheader (u "まとめてコピー");
            st_text_area (u "全案（コピー用）") (joined num_variants captions) ],
     inl tt).
Proof.
  unfold display, sbind. unfold emit at 1.
  rewrite (for_each_emits _ _
             (fun ic =>
                [ st_markdown (u "**" ++ str_of_int (fst ic) ++ u ".** " ++ snd ic);
                  st_code (snd ic);
                  st_markdown (u "---") ])).
  - unfold emit. rewrite <- !app_assoc. reflexivity.
  - intros ic l. unfold sbind, emit. now rewrite <- !app_assoc.
Qed.

Lemma display_code_blocks (rows : list (Z * str)) :
  code_blocks
    (flat_map
       (fun ic =>
          [ st_markdown (u "**" ++ str_of_int (fst ic) ++ u ".** " ++ snd ic);
            st_code (snd ic);
            st_markdown (u "---") ]) rows)
  = map snd rows.
Proof.
  induction rows as [|ic rows IH]; [reflexivity|].
  cbn [flat_map]. rewrite code_blocks_app, IH. reflexivity.
Qed.

Lemma display_requests (rows : list (Z * str)) :
  requests
    (flat_map
       (fun ic =>
          [ st_markdown (u "**" ++ str_of_int (fst ic) ++ u ".** " ++ snd ic);
            st_code (snd ic);
            st_markdown (u "---") ]) rows)
  = [].
Proof.
  induction rows as [|ic rows IH]; [reflexivity|].
  cbn [flat_map]. rewrite requests_app, IH. reflexivity.
Qed.

(** The display sends nothing to the service. *)
Lemma display_sends_nothing (captions : list str) (log : list event) :
  requests (fst (display num_variants captions log)) = requests log.
Proof.
  rewrite display_runs. cbn [fst].
  rewrite requests_app.
  change (requests (?a :: ?b ++ ?c)) with (requests ([a] ++ b ++ c)).
  rewrite !requests_app, display_requests. cbn [requests filter is_request].
  now rewrite !app_nil_r.
Qed.

(** The three ways the [try] block can go. *)
Lemma generation_client_fails (e : exn) (log : list event) :
  ChatOpenAI = Raise e ->
  generation ChatOpenAI completion description platform tone language
    num_variants log
  = (log ++ [ st_spinner (u "キャプションを生成中..."); st_exception (u "生成中にエラーが発生しました: " ++ exn_str e) ], inr StopException).
Proof.
  intros H. unfold generation. unfold sbind at 1. unfold emit at 1.
  unfold try_except, sbind. rewrite H. cbn [lift].
  unfold emit, st_stop. now rewrite <- app_assoc.
Qed.

Lemma generation_format_fails (e : exn) (log : list event) :
  ChatOpenAI = Ok tt ->
  format_messages
    (build_prompt_template platform tone description num_variants language)
    (inputs description) = Raise e ->
  generation ChatOpenAI completion description platform tone language
    num_variants log
  = (log ++ [ st_spinner (u "キャプションを生成中..."); st_exception (u "生成中にエラーが発生しました: " ++ exn_str e) ], inr StopException).
Proof.
  intros H Hf. unfold generation. unfold sbind at 1. unfold emit at 1.
  unfold try_except, sbind. rewrite H. cbn [lift].
  unfold LLMChain_run, sbind. rewrite Hf. cbn [lift].
  unfold emit, st_stop. now rewrite <- app_assoc.
Qed.

Lemma generation_completion_fails (messages : list message) (e : exn)
    (log : list event) :
  ChatOpenAI = Ok tt ->
  format_messages
    (build_prompt_template platform tone description num_variants language)
    (inputs description) = Ok messages ->
  completion (List.length (requests log)) messages = Raise e ->
  generation ChatOpenAI completion description platform tone language
    num_variants log
  = (log ++ [ st_spinner (u "キャプションを生成中..."); completion_request messages; st_exception (u "生成中にエラーが発生しました: " ++ exn_str e) ],
     inr StopException).
Proof.
  intros H Hf Hc. unfold generation. unfold sbind at 1. unfold emit at 1.
  unfold try_except, sbind. rewrite H. cbn [lift].
  rewrite (LLMChain_run_sent _ _ _ _ _ Hf).
  rewrite requests_app. cbn [requests filter is_request]. rewrite app_nil_r.
  fold (requests log). rewrite Hc.
  unfold emit, st_stop. now rewrite <- !app_assoc.
Qed.

Lemma generation_answered (messages : list message) (raw_output : str)
    (log : list event) :
  ChatOpenAI = Ok tt ->
  format_messages
    (build_prompt_template platform tone description num_variants language)
    (inputs description) = Ok messages ->
  completion (List.length (requests log)) messages = Ok raw_output ->
  generation ChatOpenAI completion description platform tone language
    num_variants log
  = (log ++ [ st_spinner (u "キャプションを生成中..."); completion_request messages ],
     inl (if blank raw_output then [ [] ]
          else map marker_stripped (lines raw_output))).
Proof.
  intros H Hf Hc. unfold generation. unfold sbind at 1. unfold emit at 1.
  unfold try_except, sbind. rewrite H. cbn [lift].
  rewrite (LLMChain_run_sent _ _ _ _ _ Hf).
  rewrite requests_app. cbn [requests filter is_request]. rewrite app_nil_r.
  fold (requests log). rewrite Hc, parse_captions_ok.
  rewrite <- app_assoc. cbn [app].
  destruct (blank raw_output) eqn:Eb.
  - assert (El : lines raw_output = []) by now apply lines_nil, strip_blank.
    rewrite El. cbn [map truthy negb]. unfold ret.
    now rewrite (strip_blank raw_output Eb).
  - destruct (map marker_stripped (lines raw_output)) as [|c cs] eqn:Em;
      [| reflexivity].
    exfalso. apply map_eq_nil in Em. apply lines_nil, strip_nil in Em.
    congruence.
Qed.

Lemma generation_outcomes (log : list event) :
  (exists e,
     generation ChatOpenAI completion description platform tone language
       num_variants log
     = (log ++ [ st_spinner (u "キャプションを生成中..."); st_exception (u "生成中にエラーが発生しました: " ++ exn_str e) ], inr StopException))
  \/ (exists messages e,
        generation ChatOpenAI completion description platform tone language
          num_variants log
        = (log ++ [ st_spinner (u "キャプションを生成中..."); completion_request messages; st_exception (u "生成中にエラーが発生しました: " ++ exn_str e) ],
           inr StopException))
  \/ (exists messages captions,
        generation ChatOpenAI completion description platform tone language
          num_variants log
        = (log ++ [ st_spinner (u "キャプションを生成中..."); completion_request messages ], inl captions)).
Proof.
  assert (Hcase : ChatOpenAI = Ok tt \/ exists e, ChatOpenAI = Raise e)
    by (destruct ChatOpenAI as [[]|e]; eauto).
  destruct Hcase as [Hllm | (e & Hllm)].
  - destruct (format_messages
    (build_prompt_template platform tone description num_variants language)
    (inputs description)) as [messages|e] eqn:Hf.
    + destruct (completion (List.length (requests log)) messages) as [raw|e] eqn:Hc.
      * right. right. eexists _, _.
        now apply (generation_answered messages raw).
      * right. left. exists messages, e.
        now apply generation_completion_fails.
    + left. exists e. now apply generation_format_fails.
  - left. exists e. now apply generation_client_fails.
Qed.

Lemma validation_passes (log : list event) :
  blank description = false -> validation description log = (log, inl tt).
Proof.
  intros H. unfold validation.
  destruct (strip description) eqn:E; [| reflexivity].
  apply strip_nil in E. congruence.
Qed.

End RunFacts.

(** A run whose description is not blank: the [try] block, then, if it
    yields captions, their display and the summary. *)
Lemma on_submit_steps
    (ChatOpenAI : result unit) (completion : nat -> list message -> result str)
    (description platform tone language : str) (num_variants : Z)
    (log : list event) :
  blank description = false ->
  on_submit ChatOpenAI completion description platform tone language
    num_variants true log
  = match generation ChatOpenAI completion description platform tone language
            num_variants log with
    | (log1, inl captions) =>
        summary completion description
          (fst (display num_variants captions log1))
    | (log1, inr s) => (log1, inr s)
    end.
Proof.
  intros H. unfold on_submit, captions_part, sbind.
  rewrite (validation_passes description log H).
  destruct (generation _ _ _ _ _ _ _ log) as [log1 [captions | s]];
    [| reflexivity].
  now rewrite display_runs.
Qed.

(* ================================================================== *)
(** * Further properties of the parser *)
(* ================================================================== *)

(** X1: every caption [parse_captions] returns is trimmed and holds no
    line boundary: it has no whitespace at either end and is one line. *)
Theorem captions_are_trimmed_lines (raw : str) :
  exists captions,
    parse_captions raw = Ok captions
    /\ Forall (fun caption => strip caption = caption /\ one_line caption = true)
         captions.
Proof.
  exists (map marker_stripped (lines raw)).
  split; [apply parse_captions_ok | apply cleaned_lines_trimmed].
Qed.

(** X2: the parser makes no text up: every caption it returns is a
    contiguous piece of the text it was given. *)
Theorem captions_occur_in_text (raw : str) :
  exists captions,
    parse_captions raw = Ok captions
    /\ Forall (fun caption => occurs_in caption raw) captions.
Proof.
  exists (map marker_stripped (lines raw)). split; [apply parse_captions_ok|].
  apply Forall_forall. intros caption Hin.
  apply in_map_iff in Hin as (line & <- & Hin).
  pose proof (lines_occur raw) as F. rewrite Forall_forall in F.
  eapply occurs_in_trans; [apply marker_stripped_occurs | apply F, Hin].
Qed.

(** X3: whitespace before and after the text, blank lines included, does
    not change what [parse_captions] returns. *)
Theorem parse_captions_ignores_padding (before raw after : str) :
  blank before = true -> blank after = true ->
  parse_captions (before ++ raw ++ after) = parse_captions raw.
Proof.
  intros Hb Ha. now rewrite !parse_captions_ok, (lines_padded _ _ _ Hb Ha).
Qed.

Lemma parse_captions_ignores_padding_witness :
  blank (nl ++ u "  ") = true
  /\ blank (u " " ++ nl ++ nl) = true
  /\ parse_captions ((nl ++ u "  ") ++ two_numbered ++ (u " " ++ nl ++ nl))
     = parse_captions two_numbered.
Proof.
  split; [vm_compute; reflexivity|]. split; [vm_compute; reflexivity|].
  apply parse_captions_ignores_padding; vm_compute; reflexivity.
Defined.

(** X4: parsing works line by line: the captions of two texts joined by a
    newline are the captions of the first followed by those of the
    second. *)
Theorem parse_captions_concat (first second : str) :
  exists captions captions',
    parse_captions first = Ok captions
    /\ parse_captions second = Ok captions'
    /\ parse_captions (first ++ nl ++ second) = Ok (captions ++ captions').
Proof.
  exists (map marker_stripped (lines first)), (map marker_stripped (lines second)).
  rewrite !parse_captions_ok. split; [reflexivity|]. split; [reflexivity|].
  change (first ++ nl ++ second) with (first ++ LF :: second).
  now rewrite lines_concat, map_app.
Qed.

(** X10: the text of the copy block reads back as the captions shown.
    For captions that are trimmed and on one line, parsing the numbered
    lines the script joins gives the displayed prefix of the list back;
    the captions the parser itself returns are of that kind. *)
Theorem copy_block_parses_back :
  (forall num_variants captions,
     Forall (fun caption => strip caption = caption /\ one_line caption = true)
       captions ->
     parse_captions (joined num_variants captions)
     = Ok (slice_to captions num_variants))
  /\ (forall raw num_variants,
        exists captions,
          parse_captions raw = Ok captions
          /\ parse_captions (joined num_variants captions)
             = Ok (slice_to captions num_variants)).
Proof.
  split; [exact joined_parses_back|].
  intros raw n. exists (map marker_stripped (lines raw)).
  split; [apply parse_captions_ok|].
  apply joined_parses_back, cleaned_lines_trimmed.
Qed.

Lemma copy_block_parses_back_witness :
  Forall (fun caption => strip caption = caption /\ one_line caption = true)
    [ u "Sea. Sun #a"; u ""; u "3) waves" ]
  /\ parse_captions (joined 2 [ u "Sea. Sun #a"; u ""; u "3) waves" ])
     = Ok [ u "Sea. Sun #a"; u "" ].
Proof.
  assert (H : Forall (fun caption => strip caption = caption /\ one_line caption = true)
                [ u "Sea. Sun #a"; u ""; u "3) waves" ])
    by (repeat constructor; vm_compute; reflexivity).
  split; [exact H|].
  exact (proj1 copy_block_parses_back 2%Z _ H).
Defined.

(* ================================================================== *)
(** * Further properties of the submission script *)
(* ================================================================== *)

(** X5: a description with at least one character that is not whitespace
    passes the check: the run renders no error for it and goes on to the
    generation, whose spinner is the first thing it shows. *)
Theorem nonblank_description_goes_on
    (ChatOpenAI : result unit) (completion : nat -> list message -> result str)
    (description platform tone language : str) (num_variants : Z)
    (log : list event) :
  blank description = false ->
  validation description log = (log, inl tt)
  /\ exists more outcome,
       on_submit ChatOpenAI completion description platform tone language
         num_variants true log
       = (log ++ st_spinner (u "キャプションを生成中...") :: more, outcome).
Proof.
  intros H. split; [now apply validation_passes|].
  rewrite (on_submit_steps _ _ _ _ _ _ _ _ H).
  destruct (generation_outcomes ChatOpenAI completion description platform tone
              language num_variants log)
    as [(e & ->) | [(m & e & ->) | (m & captions & ->)]].
  - eexists _, _. reflexivity.
  - eexists _, _. reflexivity.
  - rewrite display_runs, summary_runs. cbn [fst].
    eexists _, _. rewrite <- !app_assoc. cbn [app]. reflexivity.
Qed.

Lemma nonblank_description_goes_on_witness :
  blank (u " beach ") = false
  /\ validation (u " beach ") [] = ([], inl tt).
Proof.
  split; [vm_compute; reflexivity|].
  apply (nonblank_description_goes_on (Ok tt) blank_completion (u " beach ")
           (u "X") (u "シンプル") (u "English") 3 []).
  vm_compute. reflexivity.
Defined.

(** X6: the fallback is taken only for a blank answer, and the single
    caption it yields is then the empty string; for any other answer the
    captions are the parsed ones and there is at least one. *)
Theorem fallback_only_for_blank_answer
    (ChatOpenAI : result unit) (completion : nat -> list message -> result str)
    (description platform tone language : str) (num_variants : Z)
    (log : list event) (messages : list message) (raw_output : str) :
  ChatOpenAI = Ok tt ->
  format_messages
    (build_prompt_template platform tone description num_variants language)
    (inputs description) = Ok messages ->
  completion (List.length (requests log)) messages = Ok raw_output ->
  exists captions,
    generation ChatOpenAI completion description platform tone language
      num_variants log
    = (log ++ [ st_spinner (u "キャプションを生成中..."); completion_request messages ],
       inl captions)
    /\ (blank raw_output = true ->
        parse_captions raw_output = Ok [] /\ captions = [ [] ])
    /\ (blank raw_output = false ->
        parse_captions raw_output = Ok captions /\ captions <> []).
Proof.
  intros Hllm Hf Hc. eexists.
  split; [now apply (generation_answered _ _ _ _ _ _ _ messages raw_output)|].
  split; intros Hb; rewrite Hb.
  - split; [| reflexivity]. now apply parse_captions_nil, strip_blank.
  - split; [apply parse_captions_ok|].
    intros E. apply map_eq_nil in E. apply lines_nil, strip_nil in E. congruence.
Qed.

Lemma fallback_only_for_blank_answer_witness :
  let messages :=
    [ (system, system_message (u "Instagram") (u "カジュアル") 5);
      (human, nl ++ u "Content description:" ++ nl ++ u "Weekend at the beach" ++ nl) ] in
  blank (u "  " ++ nl ++ u " ") = true
  /\ generation (Ok tt) blank_completion (u "Weekend at the beach")
       (u "Instagram") (u "カジュアル") (u "日本語") 5 []
     = ([ st_spinner (u "キャプションを生成中..."); completion_request messages ],
        inl [ [] ]).
Proof.
  cbv zeta. split; [vm_compute; reflexivity|].
  assert (Hfmt :
    format_messages
      (build_prompt_template (u "Instagram") (u "カジュアル")
         (u "Weekend at the beach") 5 (u "日本語"))
      (inputs (u "Weekend at the beach"))
    = Ok [ (system, system_message (u "Instagram") (u "カジュアル") 5);
           (human, nl ++ u "Content description:" ++ nl
                   ++ u "Weekend at the beach" ++ nl) ])
    by (vm_compute; reflexivity).
  destruct (fallback_only_for_blank_answer (Ok tt) blank_completion
              (u "Weekend at the beach") (u "Instagram") (u "カジュアル")
              (u "日本語") 5 [] _ (u "  " ++ nl ++ u " ")
              eq_refl Hfmt eq_refl) as (captions & Hrun & Hblank & _).
  destruct Hblank as (_ & ->); [vm_compute; reflexivity|]. exact Hrun.
Defined.

(** X7: when the client cannot be built, or the service fails on the
    caption request, the run renders the error with the exception's text
    and stops: no caption is displayed and the summary is never asked
    for; the failed request is not sent again. *)
Theorem generation_failure_stops
    (ChatOpenAI : result unit) (completion : nat -> list message -> result str)
    (description platform tone language : str) (num_variants : Z)
    (log : list event) :
  blank description = false ->
  let failure e :=
    st_exception (u "生成中にエラーが発生しました: " ++ exn_str e) in
  let spinner := st_spinner (u "キャプションを生成中...") in
  (forall e,
     ChatOpenAI = Raise e ->
     on_submit ChatOpenAI completion description platform tone language
       num_variants true log
     = (log ++ [ spinner; failure e ], inr StopException))
  /\ (forall messages e,
        ChatOpenAI = Ok tt ->
        format_messages
          (build_prompt_template platform tone description num_variants language)
          (inputs description) = Ok messages ->
        completion (List.length (requests log)) messages = Raise e ->
        on_submit ChatOpenAI completion description platform tone language
          num_variants true log
        = (log ++ [ spinner; completion_request messages; failure e ],
           inr StopException)).
Proof.
  intros H failure spinner. split.
  - intros e He. rewrite (on_submit_steps _ _ _ _ _ _ _ _ H).
    now rewrite (generation_client_fails _ _ _ _ _ _ _ e log He).
  - intros messages e Hllm Hf Hc. rewrite (on_submit_steps _ _ _ _ _ _ _ _ H).
    now rewrite (generation_completion_fails _ _ _ _ _ _ _ messages e log Hllm Hf Hc).
Qed.

Lemma generation_failure_stops_witness :
  blank (u "beach") = false
  /\ on_submit (Raise (ValueError (u "no key"))) failing_completion (u "beach")
       (u "X") (u "シンプル") (u "English") 3 true []
     = ([ st_spinner (u "キャプションを生成中...");
          st_exception (u "生成中にエラーが発生しました: " ++ u "no key") ],
        inr StopException).
Proof.
  split; [vm_compute; reflexivity|].
  apply (proj1 (generation_failure_stops (Raise (ValueError (u "no key")))
                  failing_completion (u "beach") (u "X") (u "シンプル")
                  (u "English") 3 [] eq_refl)
           (ValueError (u "no key"))).
  reflexivity.
Defined.

(** X8: whatever the collaborators do, a run ends normally or by
    [st.stop()], never by an exception that nothing caught, and it sends
    at most two requests to the completion service. *)
Theorem run_never_uncaught
    (ChatOpenAI : result unit) (completion : nat -> list message -> result str)
    (description platform tone language : str) (num_variants : Z)
    (submitted : bool) (log : list event) :
  let run :=
    on_submit ChatOpenAI completion description platform tone language
      num_variants submitted log in
  ~ uncaught run
  /\ exists sent,
       requests (fst run) = requests log ++ sent /\ List.length sent <= 2.
Proof.
  cbv zeta. destruct submitted.
  2:{ cbn. split; [intros (e & He); discriminate|].
      exists []. split; [now rewrite app_nil_r | cbn; lia]. }
  destruct (blank description) eqn:Hb.
  - assert (E : on_submit ChatOpenAI completion description platform tone
                   language num_variants true log
                 = (log ++ [ st_error (u "説明を入力してください。") ],
                    inr StopException)).
    { unfold on_submit, captions_part, validation.
      rewrite (strip_blank description Hb). reflexivity. }
    rewrite E. cbn [fst snd].
    split; [intros (e & He); discriminate|].
    exists []. rewrite requests_app. cbn [requests filter is_request].
    split; [reflexivity | cbn; lia].
  - rewrite (on_submit_steps _ _ _ _ _ _ _ _ Hb).
    destruct (generation_outcomes ChatOpenAI completion description platform tone
                language num_variants log)
      as [(e & ->) | [(m & e & ->) | (m & captions & ->)]].
    + cbn [fst snd]. split; [intros (e' & He); discriminate|].
      exists []. rewrite requests_app. cbn [requests filter is_request].
      split; [reflexivity | cbn; lia].
    + cbn [fst snd]. split; [intros (e' & He); discriminate|].
      exists [completion_request m]. rewrite requests_app.
      cbn [requests filter is_request]. split; [reflexivity | cbn; lia].
    + rewrite summary_runs. cbn [fst snd].
      split; [intros (e' & He); discriminate|].
      exists [ completion_request m;
               completion_request
                 [ (system, summary_instruction); (human, description) ] ].
      split; [| cbn; lia].
      rewrite requests_app, display_sends_nothing, requests_app.
      cbn [requests filter is_request]. now rewrite <- app_assoc.
Qed.

(** What the display adds to the rendered elements. *)
Lemma display_result (num_variants : Z) (captions : list str) (log : list event) :
  exists shown,
    display num_variants captions log = (log ++ shown, inl tt)
    /\ code_blocks shown = slice_to captions num_variants
    /\ requests shown = []
    /\ In (st_text_area (u "全案（コピー用）") (joined num_variants captions)) shown.
Proof.
  eexists. split; [apply display_runs|].
  split; [| split].
  - change (code_blocks (?a :: ?b ++ ?c)) with (code_blocks ([a] ++ b ++ c)).
    rewrite !code_blocks_app, display_code_blocks, enumerate1_snd.
    cbn [code_blocks flat_map app]. now rewrite app_nil_r.
  - change (requests (?a :: ?b ++ ?c)) with (requests ([a] ++ b ++ c)).
    rewrite !requests_app, display_requests. reflexivity.
  - right. apply in_or_app. right. right. now left.
Qed.

(** X9: the display ends normally, sends nothing to the service and shows
    in its code blocks the captions of [captions[:num_variants]] in their
    order: for a count that is not negative, the first [num_variants]
    captions, or all of them when there are fewer. The copy block it
    renders holds the joined text. *)
Theorem display_shows_first_captions
    (num_variants : Z) (captions : list str) (log : list event) :
  exists shown,
    display num_variants captions log = (log ++ shown, inl tt)
    /\ code_blocks shown = slice_to captions num_variants
    /\ requests shown = []
    /\ In (st_text_area (u "全案（コピー用）") (joined num_variants captions)) shown
    /\ ((0 <= num_variants)%Z ->
        code_blocks shown = firstn (Z.to_nat num_variants) captions
        /\ List.length (code_blocks shown)
           = Nat.min (Z.to_nat num_variants) (List.length captions)).
Proof.
  destruct (display_result num_variants captions log)
    as (shown & Hrun & Hc & Hr & Ht).
  exists shown. repeat (split; [assumption|]).
  intros Hn. rewrite Hc. unfold slice_to.
  destruct (Z.leb_spec 0 num_variants); [| lia].
  split; [reflexivity | apply length_firstn].
Qed.

Lemma display_shows_first_captions_witness :
  (0 <= 3)%Z
  /\ exists shown,
       display 3 (map marker_stripped (lines eight_numbered)) [] = (shown, inl tt)
       /\ code_blocks shown = [ u "one #a"; u "two #b"; u "three #c" ].
Proof.
  split; [lia|].
  destruct (display_shows_first_captions 3
              (map marker_stripped (lines eight_numbered)) [])
    as (shown & Hrun & _ & _ & _ & Hfirst).
  exists shown. split; [exact Hrun|].
  destruct Hfirst as (-> & _); [lia|]. vm_compute. reflexivity.
Defined.

(** X11: a run with a description that is not blank, a client that is
    built, a prompt that is filled in and a caption request that is
    answered ends normally. It sends two requests, the caption request and
    then the summary request, which holds the description alone under the
    summary instruction; between them it shows the first captions of the
    answer in code blocks, and the text of its copy block reads back, by
    the parser, as the captions shown. *)
Theorem answered_run_completes
    (ChatOpenAI : result unit) (completion : nat -> list message -> result str)
    (description platform tone language : str) (num_variants : Z)
    (log : list event) (messages : list message) (raw_output : str) :
  blank description = false ->
  ChatOpenAI = Ok tt ->
  format_messages
    (build_prompt_template platform tone description num_variants language)
    (inputs description) = Ok messages ->
  completion (List.length (requests log)) messages = Ok raw_output ->
  let captions :=
    if blank raw_output then [ [] ]
    else map marker_stripped (lines raw_output) in
  let summary_request :=
    completion_request [ (system, summary_instruction); (human, description) ] in
  exists shown notice,
    on_submit ChatOpenAI completion description platform tone language
      num_variants true log
    = (log
         ++ [ st_spinner (u "キャプションを生成中..."); completion_request messages ]
         ++ shown
         ++ [ st_subheader (u "説明の要約（任意）"); summary_request; st_info notice ],
       inl tt)
    /\ requests shown = []
    /\ code_blocks shown = slice_to captions num_variants
    /\ exists text,
         In (st_text_area (u "全案（コピー用）") text) shown
         /\ parse_captions text = Ok (code_blocks shown).
Proof.
  intros Hd Hllm Hf Hc captions summary_request.
  rewrite (on_submit_steps _ _ _ _ _ _ _ _ Hd).
  rewrite (generation_answered _ _ _ _ _ _ _ messages raw_output log Hllm Hf Hc).
  fold captions.
  destruct (display_result num_variants captions
              (log ++ [ st_spinner (u "キャプションを生成中...");
                        completion_request messages ]))
    as (shown & Hrun & Hcode & Hreq & Htext).
  rewrite Hrun, summary_runs. cbn [fst].
  eexists shown, _. split; [now rewrite <- !app_assoc|].
  split; [exact Hreq|]. split; [exact Hcode|].
  exists (joined num_variants captions). split; [exact Htext|].
  rewrite Hcode. apply joined_parses_back.
  unfold captions. destruct (blank raw_output).
  - repeat constructor.
  - apply cleaned_lines_trimmed.
Qed.

Lemma answered_run_completes_witness :
  let messages :=
    [ (system, system_message (u "X") (u "シンプル") 3);
      (human, nl ++ u "Content description:" ++ nl ++ u "beach" ++ nl) ] in
  blank (u "beach") = false
  /\ failing_summary (List.length (requests [])) messages = Ok two_numbered
  /\ exists shown notice,
       on_submit (Ok tt) failing_summary (u "beach") (u "X") (u "シンプル")
         (u "English") 3 true []
       = ([ st_spinner (u "キャプションを生成中..."); completion_request messages ]
            ++ shown
            ++ [ st_subheader (u "説明の要約（任意）");
                 completion_request
                   [ (system, summary_instruction); (human, u "beach") ];
                 st_info notice ],
          inl tt)
       /\ code_blocks shown
          = [ u "Sunny beach day #summer #vibes"; u "Coffee and a good book #mood" ].
Proof.
  cbv zeta. split; [vm_compute; reflexivity|]. split; [reflexivity|].
  assert (Hfmt :
    format_messages
      (build_prompt_template (u "X") (u "シンプル") (u "beach") 3 (u "English"))
      (inputs (u "beach"))
    = Ok [ (system, system_message (u "X") (u "シンプル") 3);
           (human, nl ++ u "Content description:" ++ nl ++ u "beach" ++ nl) ])
    by (vm_compute; reflexivity).
  destruct (answered_run_completes (Ok tt) failing_summary (u "beach") (u "X")
              (u "シンプル") (u "English") 3 [] _ two_numbered
              eq_refl eq_refl Hfmt eq_refl)
    as (shown & notice & Hrun & _ & Hcode & _).
  exists shown, notice. split; [exact Hrun|].
  rewrite Hcode. vm_compute. reflexivity.
Defined.
